(** * Moderation pipeline: session refresh, client retry loops, embed checks

    A shallow embedding of the moderation client of the firehose moderation
    agent: [pds_session] (token refresh), [client] (the REST retry loops),
    [embed_checker] (frequency counters, URI admission) and [embed_handler]
    (redirect callback and termination outcomes).

    C++ code that logs, counts, reads the clock, talks to the network and
    throws is written in one state-and-exception monad [M]: a computation
    takes the object it mutates and the observable output so far and returns
    a value or a thrown exception, together with the new object and output.
    State written before a [throw] stays written, as in C++.  Everything the
    code reaches outside of the repository (the clock, the HTTP library, the
    JWT decoder, the URL parser, the rule matcher) is an argument. *)

From stdpp Require Import base gmap strings list.
From Stdlib Require Import ZArith Lia Ascii String.

Open Scope Z_scope.

(** ** Strings *)

(** A literal double quote, for the JSON fragments the code searches for. *)
Definition dquote : ascii := Ascii.ascii_of_nat 34.

Definition quoted (s : string) : string := String dquote (s +:+ String dquote EmptyString).

(** [std::string::empty]. *)
Definition is_empty (s : string) : bool :=
  match s with EmptyString => true | String _ _ => false end.

(** [std::string_view::contains(needle)]: [needle] occurs somewhere in [s]. *)
Fixpoint contains (s needle : string) : bool :=
  String.prefix needle s ||
  match s with
  | EmptyString => false
  | String _ rest => contains rest needle
  end.

(** [starts_with(s, p)] and [ends_with(s, p)] of the helper header. *)
Definition starts_with (s p : string) : bool := String.prefix p s.

Definition ends_with (s p : string) : bool :=
  (String.length p <=? String.length s)%nat &&
  String.eqb (String.substring (String.length s - String.length p) (String.length p) s) p.

(** [s.substr(pos)] and [s.substr(0, n)]. *)
Definition substr_from (pos : nat) (s : string) : string :=
  String.substring pos (String.length s - pos) s.

Definition substr_to (n : nat) (s : string) : string := String.substring 0 n s.

(** ** Exceptions *)

Inductive error_category := misc_category | system_category | generic_category.

(** [boost::system::error_code]: a value in a category. *)
Record error_code := { value : Z; category : error_category }.

(** [boost::asio::error::eof] in [boost::asio::error::get_misc_category()]. *)
Definition asio_error_eof : Z := 2.

(** The exception classes the handlers tell apart.  All three derive from
    [std::exception]: [boost::system::system_error] and
    [restc_cpp::ConstraintException] are [std::runtime_error]s. *)
Inductive exn :=
| system_error (code : error_code) (what_arg : string)
| ConstraintException (what_arg : string)
| std_exception (what_arg : string).

Definition what (e : exn) : string :=
  match e with
  | system_error _ w => w
  | ConstraintException w => w
  | std_exception w => w
  end.

(** The test every retry loop makes on a caught [system_error]:
    [exc.code().value() == eof && exc.code().category() == misc]. *)
Definition is_asio_eof (c : error_code) : bool :=
  (value c =? asio_error_eof) &&
  match category c with misc_category => true | _ => false end.

Definition eof_error : exn :=
  system_error {| value := asio_error_eof; category := misc_category |} "End of file".

Definition is_eof (e : exn) : bool :=
  match e with
  | system_error code _ => is_asio_eof code
  | _ => false
  end.

(** What a call into a library gives back. *)
Inductive outcome (A : Type) :=
| Returns (a : A)
| Raises (e : exn).
Arguments Returns {A} a.
Arguments Raises {A} e.

(** ** Data of the session and of the wire *)

Record session_tokens := { accessJwt : string; refreshJwt : string }.

Record login_info := { identifier : string; password : string }.

Inductive post_body :=
| body_empty
| body_login (credentials : login_info).

(** One [_client.do_post<BODY, session_tokens>(path, body,
    needs_refresh_check, no_post_log)] made by the session, with the tokens
    the session exposes through [access_token()] / [refresh_token()] while
    the call runs. *)
Record post_call := {
  post_path : string;
  post_data : post_body;
  needs_refresh_check : bool;
  no_post_log : bool;
  post_tokens : session_tokens }.

Inductive http_method := GET | POST.

(** A request as built with [restc_cpp::RequestBuilder]. *)
Record http_request := {
  method : http_method;
  url : string;
  headers : list (string * string);
  arguments : list (string * string);
  data : option string }.

(** ** Observable output *)

Inductive level := Trace | Info | Warning | Error.

Inductive arg := a_str (s : string) | a_num (n : Z) | a_list (l : list string).

(** A rule match of the external matcher; only emptiness of the result list
    is inspected here. *)
Record match_result := { rule : string; matched : string }.

Inductive event :=
| Log (lvl : level) (format : string) (args : list arg)
| Increment (family label_name label_value : string)
| Decrement (family label_name label_value : string)
| Observe (family label_name label_value : string) (sample : Z)
| DoPost (call : post_call)
| Execute (request : http_request)
| ProcessWithPromise (target : string)
| ActionRouterEnqueue (repo : string) (matches : list (string * list match_result))
| ReportAgentEnqueue (repo path : string) (chain : list string).

(** The output so far, oldest first, and the number of calls made into the
    environment, which indexes its answers. *)
Record io := { trace : list event; tick : nat }.

Definition io0 : io := {| trace := []; tick := 0 |}.

Definition emit (e : event) (o : io) : io :=
  {| trace := trace o ++ [e]; tick := tick o |}.

Definition bump (o : io) : io := {| trace := trace o; tick := S (tick o) |}.

(** How often a counter was incremented in the output. *)
Definition is_increment (family label_name label_value : string) (e : event) : bool :=
  match e with
  | Increment f n v =>
    String.eqb f family && String.eqb n label_name && String.eqb v label_value
  | _ => false
  end.

Definition increments (family label_name label_value : string) (o : io) : nat :=
  List.length (List.filter (is_increment family label_name label_value) (trace o)).

(** ** The monad *)

Inductive result (A : Type) :=
| Normal (a : A)
| Thrown (e : exn).
Arguments Normal {A} a.
Arguments Thrown {A} e.

Definition M (St A : Type) : Type := St -> io -> result A * St * io.

Definition ret {St A} (a : A) : M St A := fun s o => (Normal a, s, o).

Definition bind {St A B} (c : M St A) (k : A -> M St B) : M St B :=
  fun s o =>
    match c s o with
    | (Normal a, s', o') => k a s' o'
    | (Thrown e, s', o') => (Thrown e, s', o')
    end.

Definition throw {St A} (e : exn) : M St A := fun s o => (Thrown e, s, o).

(** [try { body } catch (std::exception const &exc) { handler exc }]. *)
Definition try_catch {St A} (body : M St A) (handler : exn -> M St A) : M St A :=
  fun s o =>
    match body s o with
    | (Normal a, s', o') => (Normal a, s', o')
    | (Thrown e, s', o') => handler e s' o'
    end.

Definition get {St} : M St St := fun s o => (Normal s, s, o).

Definition modify {St} (f : St -> St) : M St unit := fun s o => (Normal tt, f s, o).

Definition tell {St} (e : event) : M St unit := fun s o => (Normal tt, s, emit e o).

Definition log {St} (lvl : level) (format : string) (args : list arg) : M St unit :=
  tell (Log lvl format args).

(** Ask the environment: the answer is a function of how many calls came
    before; the call itself is recorded. *)
Definition ask {St A} (answer : nat -> outcome A) (e : event) : M St A :=
  fun s o =>
    match answer (tick o) with
    | Returns a => (Normal a, s, bump (emit e o))
    | Raises x => (Thrown x, s, bump (emit e o))
    end.

(** Run a computation on a component of the state. *)
Definition zoom {St Sub A} (proj : St -> Sub) (upd : Sub -> St -> St)
    (c : M Sub A) : M St A :=
  fun s o => match c (proj s) o with (r, sub', o') => (r, upd sub' s, o') end.

Declare Scope M_scope.
Delimit Scope M_scope with M.
Notation "'let!' x ':=' c 'in' k" := (bind c (fun x => k))
  (at level 10, x name, c at level 100, k at level 200) : M_scope.
Notation "c '>>' k" := (bind c (fun _ => k))
  (at level 100, k at level 200, right associativity) : M_scope.
Open Scope M_scope.

Definition when {St} (b : bool) (c : M St unit) : M St unit :=
  if b then c else ret tt.

(** ** Session manager: [pds_session] *)

Module Session.

(** [AccessExpiryBuffer.count()] as the code compares it (against a count of
    milliseconds), and the number of [system_clock] ticks in a millisecond
    (the factor of the [duration_cast]). *)
Record config := { AccessExpiryBuffer : Z; ticks_per_ms : Z }.

(** The clock, the client's POST executor as the session calls it, and
    [jwt::decode(token).get_expires_at()]. *)
Record env := {
  system_clock_now : nat -> Z;
  client_do_post : nat -> post_call -> outcome session_tokens;
  jwt_expires_at : string -> outcome Z }.

(** Time points are [system_clock] ticks since the epoch, as integers; a
    default constructed time point is the epoch, 0.  The clock counts in 64
    bits: the model is that of instants whose differences fit, as those of
    the epoch and of present dates do. *)
Record pds_session := {
  _credentials : login_info;
  _tokens : session_tokens;
  _access_expiry : Z;
  _refresh_expiry : Z }.

Definition no_tokens : session_tokens :=
  {| accessJwt := EmptyString; refreshJwt := EmptyString |}.

(** The session as constructed: nothing stored, expiries at the epoch. *)
Definition fresh (credentials : login_info) : pds_session :=
  {| _credentials := credentials; _tokens := no_tokens;
     _access_expiry := 0; _refresh_expiry := 0 |}.

Definition set_credentials (c : login_info) (s : pds_session) : pds_session :=
  {| _credentials := c; _tokens := _tokens s;
     _access_expiry := _access_expiry s; _refresh_expiry := _refresh_expiry s |}.

Definition set_tokens (t : session_tokens) (s : pds_session) : pds_session :=
  {| _credentials := _credentials s; _tokens := t;
     _access_expiry := _access_expiry s; _refresh_expiry := _refresh_expiry s |}.

Definition set_access_expiry (e : Z) (s : pds_session) : pds_session :=
  {| _credentials := _credentials s; _tokens := _tokens s;
     _access_expiry := e; _refresh_expiry := _refresh_expiry s |}.

Definition set_refresh_expiry (e : Z) (s : pds_session) : pds_session :=
  {| _credentials := _credentials s; _tokens := _tokens s;
     _access_expiry := _access_expiry s; _refresh_expiry := e |}.

Definition createSession : string := "com.atproto.server.createSession".
Definition refreshSession : string := "com.atproto.server.refreshSession".

(** The marker searched for in [exc.what()]: "error":"InvalidToken" with its
    quotes. *)
Definition InvalidToken : string := quoted "error" +:+ ":" +:+ quoted "InvalidToken".

Section Ops.
Variable cfg : config.
Variable E : env.

Definition now : M pds_session Z :=
  fun s o => (Normal (system_clock_now E (tick o)), s, bump o).

(** [_client.do_post<BODY, session_tokens>(path, body, needs_refresh_check,
    no_post_log)].  The overload with these four arguments is not the
    [do_post] of client.hpp modelled below, which calls [check_refresh]
    itself; a call is one answer of the environment, the tokens or what the
    call throws. *)
Definition do_post (path : string) (body : post_body) (refresh_check no_log : bool)
    : M pds_session session_tokens :=
  let! s := get in
  let call := {| post_path := path; post_data := body;
                 needs_refresh_check := refresh_check; no_post_log := no_log;
                 post_tokens := _tokens s |} in
  ask (fun k => client_do_post E k call) (DoPost call).

Definition decode_expires_at (token : string) : M pds_session Z :=
  fun s o =>
    match jwt_expires_at E token with
    | Returns t => (Normal t, s, o)
    | Raises x => (Thrown x, s, o)
    end.

Definition internal_connect : M pds_session unit :=
  let! s := get in
  let! t := do_post createSession (body_login (_credentials s)) false true in
  modify (set_tokens t) >>
  let! access := decode_expires_at (accessJwt t) in
  modify (set_access_expiry access) >>
  log Info "bsky session access token expires at {}" [a_num access] >>
  let! refresh := decode_expires_at (refreshJwt t) in
  modify (set_refresh_expiry refresh) >>
  log Info "bsky session refresh token expires at {}" [a_num refresh].

Definition connect (credentials : login_info) : M pds_session unit :=
  modify (set_credentials credentials) >>
  internal_connect.

(** [duration_cast<milliseconds>(_access_expiry - now).count()]: the cast
    truncates towards zero. *)
Definition time_to_expiry (s : pds_session) (t : Z) : Z :=
  Z.quot (_access_expiry s - t) (ticks_per_ms cfg).

Definition refresh_due (s : pds_session) (t : Z) : bool :=
  (_access_expiry s <? t) || (time_to_expiry s t <? AccessExpiryBuffer cfg).

Definition check_refresh : M pds_session unit :=
  let! s := get in
  when (is_empty (refreshJwt (_tokens s))) (log Info "Skip refresh: no tokens" []) >>
  let! t := now in
  if refresh_due s t then
    try_catch
      (log Info "Refresh access token, expiry in {} ms" [a_num (time_to_expiry s t)] >>
       let! tokens := do_post refreshSession body_empty false true in
       modify (set_tokens tokens) >>
       let! access := decode_expires_at (accessJwt tokens) in
       modify (set_access_expiry access) >>
       log Info "bsky session access token now expires at {}" [a_num access] >>
       let! refresh := decode_expires_at (refreshJwt tokens) in
       modify (set_refresh_expiry refresh) >>
       log Info "bsky session refresh token now expires at {}" [a_num refresh])
      (fun exc =>
         if contains (what exc) InvalidToken then
           log Warning "bsky session token refresh failed, reconnect" [] >>
           internal_connect
         else throw exc)
  else ret tt.

(** [n] calls of [check_refresh] in a row, as the write calls make them. *)
Fixpoint check_refresh_times (n : nat) : M pds_session unit :=
  match n with
  | O => ret tt
  | S n' => check_refresh >> check_refresh_times n'
  end.

(** The instant at which a clock reading [t] puts the end of the buffer. *)
Definition buffer_end (t : Z) : Z := t + AccessExpiryBuffer cfg * ticks_per_ms cfg.

End Ops.

(** The POSTs the session made to one endpoint, read off the output. *)
Definition posts_to (path : string) (o : io) : list post_call :=
  omap (fun e => match e with
                 | DoPost c => if String.eqb (post_path c) path then Some c else None
                 | _ => None
                 end) (trace o).

(** The two calls the session makes, as made from state [s]. *)
Definition refresh_call (s : pds_session) : post_call :=
  {| post_path := refreshSession; post_data := body_empty;
     needs_refresh_check := false; no_post_log := true; post_tokens := _tokens s |}.

Definition connect_call (s : pds_session) : post_call :=
  {| post_path := createSession; post_data := body_login (_credentials s);
     needs_refresh_check := false; no_post_log := true; post_tokens := _tokens s |}.

(** The reading of the refresh trigger that compares with "at or past":
    one refresh call exactly when [now + buffer >= expiry]. *)
Definition refreshes_iff_buffer_reached (cfg : config) (E : env) (s : pds_session) (o : io)
    : Prop :=
  (exists call,
     posts_to refreshSession (check_refresh cfg E s o).2 =
     posts_to refreshSession o ++ [call]) <->
  buffer_end cfg (system_clock_now E (tick o)) >= _access_expiry s.

End Session.

(** ** Client facade: [bsky::client] *)

Module Client.

(** The members the operations below read. *)
Record client := {
  _session : Session.pds_session;
  _host : string;
  _service_did : string;
  _dry_run : bool;
  _use_token : bool;
  _is_ready : bool }.

Definition set_session (s : Session.pds_session) (c : client) : client :=
  {| _session := s; _host := _host c; _service_did := _service_did c;
     _dry_run := _dry_run c; _use_token := _use_token c; _is_ready := _is_ready c |}.

(** [_rest_client->ProcessWithPromiseT<R>(...).get()]: the deserialized
    response, or the exception thrown within the lambda. *)
Record env (R : Type) := {
  session_env : Session.env;
  process_with_promise : nat -> http_request -> outcome R }.
Arguments session_env {R} e.
Arguments process_with_promise {R} e.

Definition access_token (c : client) : string := accessJwt (Session._tokens (_session c)).
Definition refresh_token (c : client) : string := refreshJwt (Session._tokens (_session c)).

Definition bearer (token : string) : string * string :=
  ("Authorization"%string, "Bearer " +:+ token).

Definition content_type_json : string * string :=
  ("Content-Type"%string, "application/json"%string).

(** [atproto::ProxyLabelerSuffix]. *)
Definition ProxyLabelerSuffix : string := "#atproto_labeler".

Definition labeler_headers (c : client) : list (string * string) :=
  [ ("Atproto-Accept-Labelers"%string, _service_did c);
    ("Atproto-Proxy"%string, _service_did c +:+ ProxyLabelerSuffix) ].

Section Ops.
Variable cfg : Session.config.
Context {R : Type}.
Variable E : env R.
(** The default constructed [RESPONSE], and the members of a response that
    the log lines print. *)
Variable response0 : R.
Variable printed : R -> list arg.

Definition check_refresh : M client unit :=
  zoom _session set_session (Session.check_refresh cfg (session_env E)).

Definition execute (request : http_request) : M client R :=
  ask (fun k => process_with_promise E k request) (Execute request).

(** [do_post<BODY, RESPONSE, use_refresh, no_log>(relative_path, body)];
    [body_str] is [as_string<BODY>(body, properties)].  [fuel] bounds the
    iterations of [while (retries < 5)]; five are enough, since every
    iteration that does not leave the loop increments [retries]. *)
Fixpoint do_post_from (fuel retries : nat) (use_refresh no_log : bool)
    (relative_path body_str : string) : M client R :=
  if (retries <? 5)%nat then
    match fuel with
    | O => ret response0
    | S fuel' =>
      try_catch
        (check_refresh >>
         let! c := get in
         (if no_log then log Info "Do POST for {}, body hidden" [a_str relative_path]
          else log Info "Do POST for {}, body '{}'" [a_str relative_path; a_str body_str]) >>
         let! response := execute
           {| method := POST; url := _host c +:+ relative_path;
              headers :=
                (if _use_token c
                 then [bearer (if use_refresh then refresh_token c else access_token c)]
                 else []) ++ [content_type_json];
              arguments := [];
              data := if is_empty body_str then None else Some body_str |} in
         (if no_log then log Info "POST for {} returned OK, result hidden" [a_str relative_path]
          else log Info "POST for {} returned '{}'" (a_str relative_path :: printed response)) >>
         ret response)
        (fun exc =>
           match exc with
           | system_error code _ =>
             if is_asio_eof code then
               if (5 <=? S retries)%nat then throw exc
               else
                 log Warning "IoReaderImpl::ReadSome(POST): asio eof, retry" [] >>
                 do_post_from fuel' (S retries) use_refresh no_log relative_path body_str
             else
               log Error "POST for {} Boost exception {}" [a_str relative_path; a_str (what exc)] >>
               throw exc
           | _ =>
             log Error "POST for {} exception {}" [a_str relative_path; a_str (what exc)] >>
             throw exc
           end)
    end
  else ret response0.

Definition do_post (use_refresh no_log : bool) (relative_path body_str : string) : M client R :=
  do_post_from 5 0 use_refresh no_log relative_path body_str.

(** [create_record(record)]; [record_str] is [as_string<RECORD>(record)]. *)
Fixpoint create_record_from (fuel retries : nat) (record_str : string) : M client R :=
  if (retries <? 5)%nat then
    match fuel with
    | O => ret response0
    | S fuel' =>
      try_catch
        (check_refresh >>
         let! c := get in
         let! response := execute
           {| method := POST; url := _host c +:+ "com.atproto.repo.createRecord";
              headers := [content_type_json; bearer (access_token c)];
              arguments := [];
              data := Some record_str |} in
         log Info "createRecord for {} yielded uri {}" (a_str record_str :: printed response) >>
         ret response)
        (fun exc =>
           match exc with
           | system_error code _ =>
             if is_asio_eof code then
               log Warning "IoReaderImpl::ReadSome(createListItem): asio eof, retry" [] >>
               create_record_from fuel' (S retries) record_str
             else throw exc
           | _ =>
             log Error "createRecord {} exception {}" [a_str record_str; a_str (what exc)] >>
             throw exc
           end)
    end
  else ret response0.

Definition create_record (record_str : string) : M client R :=
  create_record_from 5 0 record_str.

(** [get_record<RESPONSE>(did, collection, rkey)]. *)
Fixpoint get_record_from (fuel retries : nat) (did collection rkey : string) : M client R :=
  if (retries <? 5)%nat then
    match fuel with
    | O => ret response0
    | S fuel' =>
      try_catch
        (let! c := get in
         let! response := execute
           {| method := GET; url := _host c +:+ "com.atproto.repo.getRecord";
              headers := [bearer (access_token c)];
              arguments := [("repo"%string, did); ("collection"%string, collection);
                            ("rkey"%string, rkey)];
              data := None |} in
         log Info "getRecord OK for {} {} {}" [a_str did; a_str collection; a_str rkey] >>
         ret response)
        (fun exc =>
           match exc with
           | system_error code _ =>
             if is_asio_eof code then
               log Warning "IoReaderImpl::ReadSome(getRecord): asio eof, retry" [] >>
               if (5 <=? S retries)%nat then throw exc
               else get_record_from fuel' (S retries) did collection rkey
             else
               log Error "getRecord for {} {} {} Boost exception {}"
                 [a_str did; a_str collection; a_str rkey; a_str (what exc)] >>
               throw exc
           | _ =>
             log Error "getRecord for {} {} {} exception {}"
               [a_str did; a_str collection; a_str rkey; a_str (what exc)] >>
             throw exc
           end)
    end
  else ret response0.

Definition get_record (did collection rkey : string) : M client R :=
  get_record_from 5 0 did collection rkey.

(** [put_record(record)]; [record_str] is [as_string<RECORD>(record)]. *)
Fixpoint put_record_from (fuel retries : nat) (record_str : string) : M client R :=
  if (retries <? 5)%nat then
    match fuel with
    | O => ret response0
    | S fuel' =>
      try_catch
        (check_refresh >>
         let! c := get in
         let! response := execute
           {| method := POST; url := _host c +:+ "com.atproto.repo.putRecord";
              headers := [content_type_json; bearer (access_token c)];
              arguments := [];
              data := Some record_str |} in
         log Info "putRecord OK for {}" [a_str record_str] >>
         ret response)
        (fun exc =>
           match exc with
           | system_error code _ =>
             if is_asio_eof code then
               log Warning "IoReaderImpl::ReadSome(putRecord): asio eof, retry" [] >>
               put_record_from fuel' (S retries) record_str
             else throw exc
           | _ =>
             log Error "putRecord for {} exception {}" [a_str record_str; a_str (what exc)] >>
             throw exc
           end)
    end
  else ret response0.

Definition put_record (record_str : string) : M client R :=
  put_record_from 5 0 record_str.

(** [send_report(did, reason)].  [reason_str] is the serialized reason,
    [reason_name] is [reason.get_name()], [body] the serialized
    [report_request].  The loop yields the flag [done]. *)
Fixpoint send_report_from (fuel retries : nat) (did reason_str reason_name body : string)
    : M client bool :=
  if (retries <? 5)%nat then
    match fuel with
    | O => ret false
    | S fuel' =>
      try_catch
        (check_refresh >>
         let! c := get in
         let! response := execute
           {| method := POST; url := _host c +:+ "com.atproto.moderation.createReport";
              headers := content_type_json :: labeler_headers c ++ [bearer (access_token c)];
              arguments := [];
              data := Some body |} in
         log Info "Report of {} {} recorded at {}, reporter {} id={}"
           (a_str did :: a_str reason_str :: printed response) >>
         tell (Increment "automation" "report" reason_name) >>
         ret true)
        (fun exc =>
           match exc with
           | system_error code _ =>
             if is_asio_eof code then
               log Warning "IoReaderImpl::ReadSome(createReport): asio eof, retry" [] >>
               send_report_from fuel' (S retries) did reason_str reason_name body
             else
               log Error "Create report of {} {} Boost exception {}"
                 [a_str did; a_str reason_str; a_str (what exc)] >>
               ret false
           | _ =>
             log Error "Create report of {} {} exception {}"
               [a_str did; a_str reason_str; a_str (what exc)] >>
             ret false
           end)
    end
  else ret false.

Definition send_report (did reason_str reason_name body : string) : M client unit :=
  let! c := get in
  when (negb (_is_ready c))
    (log Error "Bluesky client not ready, skip report of {}" [a_str body]) >>
  if _dry_run c then log Info "Dry-run Report of {}" [a_str body]
  else
    let! done := send_report_from 5 0 did reason_str reason_name body in
    when (negb done) (tell (Increment "automation" "report_error" reason_name)).

(** [do_get<RESPONSE>(relative_path, callback)]; the callback edits the
    request under construction. *)
Fixpoint do_get_from (fuel retries : nat) (relative_path : string)
    (callback : option (http_request -> http_request)) : M client R :=
  if (retries <? 5)%nat then
    match fuel with
    | O => ret response0
    | S fuel' =>
      try_catch
        (let! c := get in
         let builder :=
           {| method := GET; url := _host c +:+ relative_path;
              headers := if _use_token c then [bearer (access_token c)] else [];
              arguments := [];
              data := None |} in
         let! response := execute
           (match callback with Some f => f builder | None => builder end) in
         log Trace "GET OK for {}" [a_str relative_path] >>
         ret response)
        (fun exc =>
           match exc with
           | system_error code _ =>
             if is_asio_eof code then
               log Warning "IoReaderImpl::ReadSome(GET): asio eof, retry" [] >>
               do_get_from fuel' (S retries) relative_path callback
             else
               log Error "GET for {} Boost exception {}" [a_str relative_path; a_str (what exc)] >>
               throw exc
           | _ =>
             log Error "GET for {} exception {}" [a_str relative_path; a_str (what exc)] >>
             throw exc
           end)
    end
  else ret response0.

Definition do_get (relative_path : string)
    (callback : option (http_request -> http_request)) : M client R :=
  do_get_from 5 0 relative_path callback.

(** [emit_event(request)]; [body] is the serialized request. *)
Fixpoint emit_event_from (fuel retries : nat) (body : string) : M client R :=
  if (retries <? 5)%nat then
    match fuel with
    | O => ret response0
    | S fuel' =>
      try_catch
        (check_refresh >>
         let! c := get in
         let! response := execute
           {| method := POST; url := _host c +:+ "tools.ozone.moderation.emitEvent";
              headers := content_type_json :: labeler_headers c ++ [bearer (access_token c)];
              arguments := [];
              data := Some body |} in
         log Info "emit-event {} recorded at {}, reporter {} id={}"
           (a_str body :: printed response) >>
         ret response)
        (fun exc =>
           match exc with
           | system_error code _ =>
             if is_asio_eof code then
               log Warning "IoReaderImpl::ReadSome(emitEvent): asio eof, retry" [] >>
               emit_event_from fuel' (S retries) body
             else
               log Error "emitEvent {} Boost exception {}" [a_str body; a_str (what exc)] >>
               throw exc
           | _ =>
             log Error "emitEvent {} exception {}" [a_str body; a_str (what exc)] >>
             throw exc
           end)
    end
  else ret response0.

Definition emit_event (body : string) : M client R := emit_event_from 5 0 body.

End Ops.

(** The operations that hand back a response, with their arguments. *)
Inductive operation :=
| op_do_post (use_refresh no_log : bool) (relative_path body_str : string)
| op_create_record (record_str : string)
| op_put_record (record_str : string)
| op_get_record (did collection rkey : string)
| op_emit_event (body : string)
| op_do_get (relative_path : string) (callback : option (http_request -> http_request)).

Definition perform {R : Type} (cfg : Session.config) (E : env R) (response0 : R)
    (printed : R -> list arg) (op : operation) : M client R :=
  match op with
  | op_do_post use_refresh no_log relative_path body_str =>
    do_post cfg E response0 printed use_refresh no_log relative_path body_str
  | op_create_record record_str => create_record cfg E response0 printed record_str
  | op_put_record record_str => put_record cfg E response0 record_str
  | op_get_record did collection rkey => get_record E response0 did collection rkey
  | op_emit_event body => emit_event cfg E response0 printed body
  | op_do_get relative_path callback => do_get E response0 relative_path callback
  end.

(** Whether the operation calls [_session->check_refresh()] before it sends. *)
Definition refreshes_first (op : operation) : bool :=
  match op with
  | op_get_record _ _ _ | op_do_get _ _ => false
  | _ => true
  end.

(** No refresh is due at the clock reading number [k]; the request made as
    call number [k] fails with [e], whatever it asks. *)
Definition idle_at {R : Type} (cfg : Session.config) (E : env R) (c : client) (k : nat)
    : Prop :=
  Session.refresh_due cfg (_session c) (Session.system_clock_now (session_env E) k) = false.

Definition fails_at {R : Type} (E : env R) (k : nat) (e : exn) : Prop :=
  forall request, process_with_promise E k request = Raises e.

(** The HTTP requests a run sent, read off the output. *)
Definition requests (o : io) : list http_request :=
  omap (fun e => match e with Execute r => Some r | _ => None end) (trace o).

(** The call number of the request of pass [i] of an operation started at
    [o], when no pass before it did more than read the clock and send. *)
Definition attempt_tick (op : operation) (o : io) (i : nat) : nat :=
  if refreshes_first op then (tick o + 2 * i + 1)%nat else (tick o + i)%nat.


(** The operations that attach the access token whatever [_use_token] is,
    after [check_refresh]. *)
Definition writes_with_access_token (op : operation) : bool :=
  match op with
  | op_create_record _ | op_put_record _ | op_emit_event _ => true
  | _ => false
  end.

(** [o'] is [o] after [n] more requests and [k] more calls into the
    environment, nothing posted by the session and no counter moved. *)
Definition retried (k n : nat) (o o' : io) : Prop :=
  tick o' = (tick o + k)%nat /\
  List.length (requests o') = (List.length (requests o) + n)%nat /\
  (forall p, Session.posts_to p o' = Session.posts_to p o) /\
  (forall f l v, increments f l v o' = increments f l v o).











Definition answered {R : Type} (last : outcome R) : bool :=
  match last with
  | Returns _ => true
  | Raises _ => false
  end.

End Client.

(** ** Embed checker: counters and URI admission *)

Module Checker.

(** Modelled from the spec: [bsky::alert_needed], whose header is not among
    the sources.  The spec has it fire at the counts [factor^k] for
    k = 1, 2, 3, ... (integer factor, at least 2): the milestones [factor],
    [factor * factor], ... are walked until one equals or passes
    [new_count]. *)
Fixpoint milestone (fuel : nat) (power new_count factor : Z) : bool :=
  match fuel with
  | O => false
  | S fuel' =>
    if power =? new_count then true
    else if new_count <? power then false
    else milestone fuel' (power * factor) new_count factor
  end.

Definition alert_needed (new_count factor : Z) : bool :=
  milestone (Z.to_nat new_count) factor new_count factor.

(** Counts are unsigned 64-bit: [++count] wraps. *)
Definition uint64_incr (n : Z) : Z := (n + 1) mod 2 ^ 64.

Inductive category := image | video | record | link.

Record settings := {
  ImageFactor : Z;
  VideoFactor : Z;
  RecordFactor : Z;
  LinkFactor : Z }.

Definition factor_of (cfg : settings) (k : category) : Z :=
  match k with
  | image => ImageFactor cfg
  | video => VideoFactor cfg
  | record => RecordFactor cfg
  | link => LinkFactor cfg
  end.

Record embed_checker := {
  _checked_images : gmap string Z;
  _checked_videos : gmap string Z;
  _checked_records : gmap string Z;
  _checked_uris : gmap string Z;
  _uri_host_prefix : string;
  _whitelist_uris : gset string }.

Definition checked (k : category) (c : embed_checker) : gmap string Z :=
  match k with
  | image => _checked_images c
  | video => _checked_videos c
  | record => _checked_records c
  | link => _checked_uris c
  end.

Definition set_checked (k : category) (m : gmap string Z) (c : embed_checker) : embed_checker :=
  {| _checked_images := match k with image => m | _ => _checked_images c end;
     _checked_videos := match k with video => m | _ => _checked_videos c end;
     _checked_records := match k with record => m | _ => _checked_records c end;
     _checked_uris := match k with link => m | _ => _checked_uris c end;
     _uri_host_prefix := _uri_host_prefix c;
     _whitelist_uris := _whitelist_uris c |}.

(** The labels and the log line that differ between the four [*_seen]. *)
Definition checks_label (k : category) : string :=
  match k with
  | image => "image_checks" | video => "video_checks"
  | record => "record_checks" | link => "link_checks"
  end.

Definition repetition_family (k : category) : string :=
  match k with
  | image => "images" | video => "videos" | record => "records" | link => "links"
  end.

Definition repetition_format (k : category) : string :=
  match k with
  | image => "Image repetition count {:6} {} at {}/{}"
  | video => "Video repetition count {:6} {} at {}/{}"
  | record => "Record repetition count {:6} {} at {}/{}"
  | link => "Link repetition count {:6} {} at {}/{}"
  end.

(** [boost::urls::parse_uri] followed by [has_error()], [error().message()]
    and [host()]. *)
Inductive parse_result :=
| parsed (host : string)
| parse_error (message : string).

(** The rule matcher's candidate: root URL, field name, value. *)
Definition candidate : Type := string * string * string.

(** The libraries the checker calls. *)
Record env := {
  parse_uri : string -> parse_result;
  print_cid : string -> string;
  all_matches_for_candidates : list candidate -> list match_result }.

(** The three bytes of the UTF-8 horizontal ellipsis, e2 80 a6. *)
Definition UrlSuffix : string :=
  String "226"%char (String "128"%char (String "166"%char EmptyString)).

Section Ops.
Variable cfg : settings.
Variable E : env.

(** The body shared by [image_seen], [video_seen], [record_seen] and
    [uri_seen]: count the check, insert [{key, 1}], and when the key was
    there increment its count and ask [alert_needed].  Yields whether the
    key was already known. *)
Definition seen (k : category) (repo path key : string) : M embed_checker bool :=
  tell (Increment "embed_stats" "embed_checker" (checks_label k)) >>
  let! c := get in
  match checked k c !! key with
  | None =>
    modify (set_checked k (<[key := 1]> (checked k c))) >>
    ret false
  | Some count =>
    let count' := uint64_incr count in
    modify (set_checked k (<[key := count']> (checked k c))) >>
    when (alert_needed count' (factor_of cfg k))
      (log Info (repetition_format k)
         [a_num count';
          a_str (match k with image | video => print_cid E key | _ => key end);
          a_str repo; a_str path] >>
       tell (Increment "embed_stats" (repetition_family k) "repetition")) >>
    ret true
  end.

Definition image_seen (repo path cid : string) : M embed_checker unit :=
  seen image repo path cid >> ret tt.

Definition video_seen (repo path cid : string) : M embed_checker unit :=
  seen video repo path cid >> ret tt.

Definition record_seen (repo path uri : string) : M embed_checker unit :=
  seen record repo path uri >> ret tt.

Definition uri_seen (repo path uri : string) : M embed_checker bool :=
  seen link repo path uri.

(** The URL that is parsed: [uri] without a trailing ellipsis. *)
Definition target_of (uri : string) : string :=
  if ends_with uri UrlSuffix
  then substr_to (String.length uri - String.length UrlSuffix) uri
  else uri.

(** The host that is looked up in the whitelist. *)
Definition trimmed_host (c : embed_checker) (host : string) : string :=
  if starts_with host (_uri_host_prefix c)
  then substr_from (String.length (_uri_host_prefix c)) host
  else host.

(** [n] sightings of one key in one category, one after the other. *)
Fixpoint sightings (n : nat) (k : category) (repo path key : string) : M embed_checker unit :=
  match n with
  | O => ret tt
  | S n' => sightings n' k repo path key >> seen k repo path key >> ret tt
  end.

Definition should_process_uri (uri : string) : M embed_checker bool :=
  match parse_uri E (target_of uri) with
  | parse_error message =>
    log Warning "Skip malformed URI {}, error {}" [a_str uri; a_str message] >>
    tell (Increment "embed_stats" "links" "malformed") >>
    ret false
  | parsed host =>
    let! c := get in
    if decide (trimmed_host c host ∈ _whitelist_uris c) then
      tell (Increment "embed_stats" "links" "whitelist_skipped") >>
      ret false
    else ret true
  end.

End Ops.

(** The answer of [should_process_uri], which the counts have no part in. *)
Definition admitted (E : env) (c : embed_checker) (uri : string) : bool :=
  match parse_uri E (target_of uri) with
  | parse_error _ => false
  | parsed host => negb (bool_decide (trimmed_host c host ∈ _whitelist_uris c))
  end.

(** The count that a sighting leaves behind. *)
Definition counted (before : option Z) : Z :=
  match before with
  | None => 1
  | Some count => uint64_incr count
  end.

(** A checker that has seen nothing. *)
Definition unseen (prefix : string) (whitelist : gset string) : embed_checker :=
  {| _checked_images := ∅; _checked_videos := ∅; _checked_records := ∅;
     _checked_uris := ∅; _uri_host_prefix := prefix; _whitelist_uris := whitelist |}.

End Checker.

(** ** Redirect follower: [embed_handler] *)

Module Handler.

Import Checker.

Record embed_handler := {
  _checker : embed_checker;
  _repo : string;
  _path : string;
  _root_url : string;
  _uri_chain : list string }.

(** The handler the worker constructs for one embed. *)
Definition handler_for (c : embed_checker) (repo path : string) : embed_handler :=
  {| _checker := c; _repo := repo; _path := path;
     _root_url := EmptyString; _uri_chain := [] |}.

Definition set_checker (c : embed_checker) (h : embed_handler) : embed_handler :=
  {| _checker := c; _repo := _repo h; _path := _path h;
     _root_url := _root_url h; _uri_chain := _uri_chain h |}.

Definition set_root_url (u : string) (h : embed_handler) : embed_handler :=
  {| _checker := _checker h; _repo := _repo h; _path := _path h;
     _root_url := u; _uri_chain := _uri_chain h |}.

Definition chain_emplace_back (u : string) (h : embed_handler) : embed_handler :=
  {| _checker := _checker h; _repo := _repo h; _path := _path h;
     _root_url := _root_url h; _uri_chain := _uri_chain h ++ [u] |}.

(** One run of the request started by [ProcessWithPromise].  Either starting
    it throws, or it runs on a worker: the HTTP layer hands each redirect
    (status code, next URL) to [redirectFn] and then [check_done.get()]
    returns, or rethrows what was thrown within the lambda, the redirect
    limit's [ConstraintException] of [Execute] included. *)
Inductive redirect_run :=
| start_throws (e : exn)
| started (redirects : list (Z * string)) (finish : outcome unit).

Record env := {
  libs : Checker.env;
  rest_client : nat -> http_request -> redirect_run }.

(** The flags of [operator()(embed::external)]. *)
Record flags := { done : bool; completed : bool; overflow : bool }.

Definition set_done (f : flags) : flags :=
  {| done := true; completed := completed f; overflow := overflow f |}.
Definition set_completed (f : flags) : flags :=
  {| done := done f; completed := true; overflow := overflow f |}.
Definition set_overflow (f : flags) : flags :=
  {| done := done f; completed := completed f; overflow := true |}.

Definition browser_headers : list (string * string) :=
  [ ("User-Agent"%string,
     "Mozilla/5.0 (Windows NT 10.0; Win64; x64) AppleWebKit/537.36 (KHTML, like Gecko) Chrome/132.0.0.0 Safari/537.36"%string);
    ("Referrer-Policy"%string, "strict-origin-when-cross-origin"%string);
    ("Accept"%string,
     "text/html,application/xhtml+xml,application/xml;q=0.9,image/avif,image/webp,image/apng,*/*;q=0.8"%string);
    ("Accept-Language"%string, "en-US,en;q=0.9"%string);
    ("Accept-Encoding"%string, "gzip, deflate"%string) ].

Section Ops.
Variable cfg : settings.
Variable E : env.

Definition checker {A} (c : M embed_checker A) : M embed_handler A :=
  zoom _checker set_checker c.

(** [on_url_redirect(code, url, reply)]; [false] stops following the chain. *)
Definition on_url_redirect (code : Z) (url : string) : M embed_handler bool :=
  log Info "Redirect code {} for {}" [a_num code; a_str url] >>
  modify (chain_emplace_back url) >>
  let! h := get in
  let! known := checker (uri_seen cfg (libs E) (_repo h) (_path h) url) in
  let! stop :=
    if known then ret true else checker (should_process_uri (libs E) url) in
  if stop then ret false
  else
    tell (Increment "embed_stats" "link" "redirections") >>
    let results :=
      all_matches_for_candidates (libs E) [(_root_url h, "redirected_url"%string, url)] in
    when (negb (match results with [] => true | _ => false end))
      (tell (Increment "embed_stats" "link" "redirect_matched_rule") >>
       log Info "Redirect matched rules for {}" [a_str url] >>
       tell (ActionRouterEnqueue (_repo h) [(_path h, results)])) >>
    ret true.

(** The HTTP layer calling [redirectFn] on each redirect of a run. *)
Fixpoint deliver (redirects : list (Z * string)) : M embed_handler unit :=
  match redirects with
  | [] => ret tt
  | (code, next) :: rest => on_url_redirect code next >> deliver rest
  end.

(** One pass through the body of [while (retries < 5)]: the new flags, the
    new [retries], and whether the pass ended in [break]. *)
Definition attempt (uri : string) (retries : nat) (f : flags)
    : M embed_handler (flags * nat * bool) :=
  try_catch
    (let! h := get in
     let request :=
       {| method := GET; url := _root_url h; headers := browser_headers;
          arguments := []; data := None |} in
     let! run := ask (fun k => Returns (rest_client E k request))
                     (ProcessWithPromise (_root_url h)) in
     let! redirects_finish :=
       match run with
       | start_throws e => throw e
       | started redirects finish => ret (redirects, finish)
       end in
     let! inner :=
       try_catch
         (deliver (fst redirects_finish) >>
          match snd redirects_finish with
          | Returns _ => ret (set_completed f, retries)
          | Raises e => throw e
          end)
         (fun exc =>
            match exc with
            | system_error code _ =>
              if is_asio_eof code then
                log Warning "Redirect check: asio eof, retry" [] >>
                ret (f, S retries)
              else
                log Error "Redirect check {} Boost exception {}"
                  [a_str (_root_url h); a_str (what exc)] >>
                ret (f, retries)
            | _ =>
              log Error "Redirect check {} exception {}" [a_str uri; a_str (what exc)] >>
              ret (f, retries)
            end) in
     ret (set_done (fst inner), snd inner, true))
    (fun exc =>
       let! h := get in
       match exc with
       | ConstraintException _ =>
         log Error "Redirect limit exceeded for {}" [a_str (_root_url h)] >>
         tell (ReportAgentEnqueue (_repo h) (_path h) (_uri_chain h)) >>
         ret (set_done (set_overflow f), retries, true)
       | _ =>
         log Error "Redirect check for {} error {}" [a_str (_root_url h); a_str (what exc)] >>
         ret (set_done f, retries, true)
       end).

(** [while (retries < 5) { ... }]. *)
Fixpoint retry_loop (fuel : nat) (uri : string) (retries : nat) (f : flags)
    : M embed_handler flags :=
  if (retries <? 5)%nat then
    match fuel with
    | O => ret f
    | S fuel' =>
      let! pass := attempt uri retries f in
      if snd pass then ret (fst (fst pass))
      else retry_loop fuel' uri (snd (fst pass)) (fst (fst pass))
    end
  else ret f.

(** [while (!done) { size_t retries(0); while (retries < 5) { ... } }]. *)
Fixpoint check_loop (fuel : nat) (uri : string) (f : flags) : M embed_handler flags :=
  if negb (done f) then
    match fuel with
    | O => ret f
    | S fuel' =>
      let! f' := retry_loop 5 uri 0 f in
      check_loop fuel' uri f'
    end
  else ret f.

(** [operator()(embed::external const &value)], [uri] being [value._uri]. *)
Definition external (fuel : nat) (uri : string) : M embed_handler unit :=
  let! h := get in
  let! known := checker (uri_seen cfg (libs E) (_repo h) (_path h) uri) in
  let! skip :=
    if known then ret true
    else let! go := checker (should_process_uri (libs E) uri) in ret (negb go) in
  if skip then ret tt
  else
    modify (set_root_url uri) >>
    modify (chain_emplace_back uri) >>
    log Info "Redirect check starting for {}" [a_str uri] >>
    let! f := check_loop fuel uri {| done := false; completed := false; overflow := false |} in
    (if completed f then tell (Increment "embed_stats" "link" "redirect_ok")
     else if overflow f then tell (Increment "embed_stats" "link" "redirect_limit_exceeded")
     else tell (Increment "embed_stats" "link" "redirect_error")) >>
    let! h' := get in
    tell (Observe "link_stats" "redirection" "hops" (Z.of_nat (List.length (_uri_chain h')))) >>
    log Info "Redirect check complete {} hops for {}"
      [a_num (Z.of_nat (List.length (_uri_chain h'))); a_list (_uri_chain h')].

End Ops.

(** What reached the action router, the report agent and the hop histogram,
    read off the output. *)
Definition actions (o : io) : list (string * list (string * list match_result)) :=
  omap (fun e => match e with
                 | ActionRouterEnqueue repo matches => Some (repo, matches)
                 | _ => None
                 end) (trace o).

Definition reports (o : io) : list (string * string * list string) :=
  omap (fun e => match e with
                 | ReportAgentEnqueue repo path chain => Some (repo, path, chain)
                 | _ => None
                 end) (trace o).

Definition hops_observed (o : io) : list Z :=
  omap (fun e => match e with
                 | Observe family label_name label_value sample =>
                   if String.eqb family "link_stats" && String.eqb label_name "redirection" &&
                      String.eqb label_value "hops"
                   then Some sample else None
                 | _ => None
                 end) (trace o).

(** The three termination counters taken together, and with the histogram. *)
Definition outcomes (o : io) : nat :=
  (increments "embed_stats" "link" "redirect_ok" o +
   increments "embed_stats" "link" "redirect_limit_exceeded" o +
   increments "embed_stats" "link" "redirect_error" o)%nat.

Definition tally (o : io) : nat * list Z := (outcomes o, hops_observed o).

(** Output that is neither a termination counter nor a histogram sample. *)
Definition quiet (e : event) : bool :=
  match e with
  | Increment family label_name label_value =>
    negb (String.eqb family "embed_stats" && String.eqb label_name "link" &&
          (String.eqb label_value "redirect_ok" ||
           String.eqb label_value "redirect_limit_exceeded" ||
           String.eqb label_value "redirect_error"))
  | Observe _ _ _ _ => false
  | _ => true
  end.

(** The output of the checks themselves: log lines, counters other than the
    termination counters, and hand-overs to the action router. *)
Definition chatter (e : event) : bool :=
  match e with
  | Log _ _ _ => true
  | Increment _ _ _ => quiet e
  | ActionRouterEnqueue _ _ => true
  | _ => false
  end.

(** [o'] is [o] with chatter added, and no call into the environment. *)
Definition says_only (o o' : io) : Prop :=
  tick o' = tick o /\
  exists said, trace o' = trace o ++ said /\ forallb chatter said = true.

(** The requests started, by target. *)
Definition started_requests (o : io) : list string :=
  omap (fun e => match e with ProcessWithPromise target => Some target | _ => None end)
       (trace o).

(** [c'] has a count for every key [c] has one for, and the configuration
    of [c]. *)
Definition knows_more (c c' : embed_checker) : Prop :=
  _uri_host_prefix c' = _uri_host_prefix c /\
  _whitelist_uris c' = _whitelist_uris c /\
  forall k key, is_Some (checked k c !! key) -> is_Some (checked k c' !! key).

(** The request of [operator()(embed::external)] for a root URL. *)
Definition browser_request (root : string) : http_request :=
  {| method := GET; url := root; headers := browser_headers;
     arguments := []; data := None |}.

(** Whether [operator()(embed::external)] goes on to request the URL: it has
    no count yet and [should_process_uri] admits it. *)
Definition to_follow (E : env) (c : embed_checker) (uri : string) : bool :=
  match _checked_uris c !! uri with
  | Some _ => false
  | None => admitted (libs E) c uri
  end.

(** The URLs that a run hands to [redirectFn]. *)
Definition redirected_to (run : redirect_run) : list string :=
  match run with
  | start_throws _ => []
  | started redirects _ => map snd redirects
  end.

(** The report that a run leads to: one, when starting the request throws
    [ConstraintException]. *)
Definition reported (run : redirect_run) (h : embed_handler) (uri : string)
    : list (string * string * list string) :=
  match run with
  | start_throws (ConstraintException _) => [(_repo h, _path h, _uri_chain h ++ [uri])]
  | _ => []
  end.

(** The event that [reports] reads a report from. *)
Definition report_event (r : string * string * list string) : event :=
  ReportAgentEnqueue r.1.1 r.1.2 r.2.

(** [h'] is [h] further along the chain by [urls], each of them counted. *)
Definition follows_on (urls : list string) (h h' : embed_handler) : Prop :=
  _repo h' = _repo h /\ _path h' = _path h /\
  _uri_chain h' = _uri_chain h ++ urls /\
  knows_more (_checker h) (_checker h') /\
  forall u, In u urls -> is_Some (_checked_uris (_checker h') !! u).

(** The three values of the termination counter. *)
Definition outcome_label (v : string) : Prop :=
  v = "redirect_ok"%string \/ v = "redirect_limit_exceeded"%string \/
  v = "redirect_error"%string.

(** The termination counter that a run of the request leads to. *)
Definition outcome_counter (run : redirect_run) : string :=
  match run with
  | started _ (Returns _) => "redirect_ok"
  | start_throws (ConstraintException _) => "redirect_limit_exceeded"
  | _ => "redirect_error"
  end.

End Handler.

(** ** The worker of [embed_checker::start] *)

Module Worker.

Import Checker Handler.

(** [embed::embed_info_list] and the variants its [_embeds] hold, as the
    handler's [operator()] overloads take them. *)
Inductive embed :=
| embed_image (_cid : string)
| embed_video (_cid : string)
| embed_record (_uri : string)
| embed_external (_uri : string).

Record embed_info_list := { _did : string; _path : string; _embeds : list embed }.

Section Ops.
Variable cfg : settings.
Variable E : Handler.env.

(** [std::visit(handler, next_embed)]. *)
Definition visit (fuel : nat) (e : embed) : M embed_handler unit :=
  let! h := get in
  match e with
  | embed_image cid => checker (image_seen cfg (libs E) (_repo h) (Handler._path h) cid)
  | embed_video cid => checker (video_seen cfg (libs E) (_repo h) (Handler._path h) cid)
  | embed_record uri => checker (record_seen cfg (libs E) (_repo h) (Handler._path h) uri)
  | embed_external uri => external cfg E fuel uri
  end.

(** The body of [for (auto const &next_embed : embed_list._embeds)]: a
    handler of its own for each embed, on the one checker. *)
Definition handle (fuel : nat) (did path : string) (e : embed) : M embed_checker unit :=
  fun c o =>
    match visit fuel e (handler_for c did path) o with
    | (r, h, o') => (r, _checker h, o')
    end.

Fixpoint for_each (fuel : nat) (did path : string) (embeds : list embed)
    : M embed_checker unit :=
  match embeds with
  | [] => ret tt
  | e :: rest => handle fuel did path e >> for_each fuel did path rest
  end.

(** One turn of the worker's [while (true)], from the dequeued list on. *)
Definition process (fuel : nat) (embed_list : embed_info_list) : M embed_checker unit :=
  tell (Decrement "operational_stats" "embed_checker" "backlog") >>
  for_each fuel (_did embed_list) (_path embed_list) (_embeds embed_list).

End Ops.

(** The category an embed is counted in, and the key it is counted under. *)
Definition key_of (e : embed) : category * string :=
  match e with
  | embed_image cid => (image, cid)
  | embed_video cid => (video, cid)
  | embed_record uri => (record, uri)
  | embed_external uri => (link, uri)
  end.

(** The request that handling an embed starts, if any. *)
Definition requested (E : Handler.env) (c : embed_checker) (e : embed) : list string :=
  match e with
  | embed_external uri => if to_follow E c uri then [uri] else []
  | _ => []
  end.

(** The URLs of the external embeds of a list. *)
Definition external_uris (embeds : list embed) : list string :=
  omap (fun e => match e with embed_external uri => Some uri | _ => None end) embeds.

End Worker.

(** ** Scenarios *)

Module Scenario.

Import Session.

(** A 60 s buffer on a clock that ticks in nanoseconds. *)
Definition cfg60 : config := {| AccessExpiryBuffer := 60000; ticks_per_ms := 1000000 |}.

Definition seconds (n : Z) : Z := n * 1000 * 1000000.

Definition noon : Z := seconds 1740000000.

Definition credentials : login_info :=
  {| identifier := "moderator.example"; password := "app-password" |}.

Definition old_tokens : session_tokens :=
  {| accessJwt := "access-1"; refreshJwt := "refresh-1" |}.

Definition new_tokens : session_tokens :=
  {| accessJwt := "access-2"; refreshJwt := "refresh-2" |}.

(** A decoder that knows the four tokens: the new access token lasts two
    hours, the refresh tokens a day. *)
Definition decode (token : string) : outcome Z :=
  if String.eqb token "access-1" then Returns (noon + seconds 30)
  else if String.eqb token "access-2" then Returns (noon + seconds 7200)
  else if String.eqb token "refresh-1" then Returns (noon + seconds 86400)
  else if String.eqb token "refresh-2" then Returns (noon + seconds 86400)
  else Raises (std_exception "invalid token supplied").

(** A session whose access token expires at [expiry]. *)
Definition session_expiring (expiry : Z) : pds_session :=
  {| _credentials := credentials; _tokens := old_tokens;
     _access_expiry := expiry; _refresh_expiry := noon + seconds 86400 |}.

(** A server that answers every POST of the session with the new tokens. *)
Definition pds_granting : env :=
  {| system_clock_now := fun _ => noon;
     client_do_post := fun _ _ => Returns new_tokens;
     jwt_expires_at := decode |}.

(** The failure the code's comment quotes: HTTP 400 with the invalid-token
    body. *)
Definition invalid_token_error : exn :=
  std_exception
    ("Request failed with HTTP error: 400 Bad Request {" +:+ InvalidToken +:+ "," +:+
     quoted "message" +:+ ":" +:+ quoted "Token could not be verified" +:+ "}").

(** A server that rejects refreshSession that way and accepts createSession. *)
Definition pds_rejecting_refresh : env :=
  {| system_clock_now := fun _ => noon;
     client_do_post := fun _ call =>
       if String.eqb (post_path call) createSession then Returns new_tokens
       else Raises invalid_token_error;
     jwt_expires_at := decode |}.

(** A server whose refreshed access token is not a JWT. *)
Definition garbled_tokens : session_tokens :=
  {| accessJwt := "garbled"; refreshJwt := "refresh-2" |}.

Definition pds_garbling : env :=
  {| system_clock_now := fun _ => noon;
     client_do_post := fun _ _ => Returns garbled_tokens;
     jwt_expires_at := decode |}.

(** A server that rejects refreshSession with the invalid-token body and
    createSession with HTTP 401. *)
Definition pds_locked_out : env :=
  {| system_clock_now := fun _ => noon;
     client_do_post := fun _ call =>
       if String.eqb (post_path call) createSession
       then Raises (std_exception "Request failed with HTTP error: 401 Unauthorized")
       else Raises invalid_token_error;
     jwt_expires_at := decode |}.

(** A server whose refreshed refresh token is not a JWT. *)
Definition half_garbled_tokens : session_tokens :=
  {| accessJwt := "access-2"; refreshJwt := "garbled" |}.

Definition pds_half_garbling : env :=
  {| system_clock_now := fun _ => noon;
     client_do_post := fun _ _ => Returns half_garbled_tokens;
     jwt_expires_at := decode |}.

(** [bsky::moderation::report_response]. *)
Record report_response := { createdAt : string; id : Z; reportedBy : string }.

Definition no_response : report_response :=
  {| createdAt := EmptyString; id := 0; reportedBy := EmptyString |}.

Definition printed (r : report_response) : list arg :=
  [a_str (createdAt r); a_str (reportedBy r); a_num (id r)].

Definition recorded : report_response :=
  {| createdAt := "2025-02-22T21:22:08Z"; id := 17; reportedBy := "did:plc:moderator" |}.

(** A configured client whose access token has two hours left. *)
Definition client_with (dry_run ready : bool) : Client.client :=
  {| Client._session :=
       {| _credentials := credentials; _tokens := new_tokens;
          _access_expiry := noon + seconds 7200; _refresh_expiry := noon + seconds 86400 |};
     Client._host := "https://pds.example/xrpc/";
     Client._service_did := "did:plc:labeler";
     Client._dry_run := dry_run;
     Client._use_token := true;
     Client._is_ready := ready |}.

(** A server that answers every request with [answer]. *)
Definition server (answer : outcome report_response) : Client.env report_response :=
  {| Client.session_env := pds_granting;
     Client.process_with_promise := fun _ _ => answer |}.

(** A server that drops the connection on every call before call number
    [first_answer], and answers from then on. *)
Definition flaky_server (first_answer : nat) (answer : report_response)
    : Client.env report_response :=
  {| Client.session_env := pds_granting;
     Client.process_with_promise := fun k _ =>
       if (k <? first_answer)%nat then Raises eof_error else Returns answer |}.


(** The configured client with an access token that has 30 s left. *)
Definition client_expiring : Client.client :=
  Client.set_session (session_expiring (noon + seconds 30)) (client_with false true).


Definition http_401 : exn :=
  std_exception "Request failed with HTTP error: 401 Unauthorized".

(** A client whose session never connected: no tokens, not ready. *)
Definition unconnected_client : Client.client :=
  {| Client._session := fresh credentials;
     Client._host := "https://pds.example/xrpc/";
     Client._service_did := "did:plc:labeler";
     Client._dry_run := false;
     Client._use_token := true;
     Client._is_ready := false |}.

(** A server that turns every call away with HTTP 401. *)
Definition server_unauthorized : Client.env report_response :=
  {| Client.session_env :=
       {| system_clock_now := fun _ => noon;
          client_do_post := fun _ _ => Raises http_401;
          jwt_expires_at := decode |};
     Client.process_with_promise := fun _ _ => Raises http_401 |}.

(** A report of the account [spammer] for a redirect chain. *)
Definition spammer : string := "did:plc:spammer".

Definition reason_json : string :=
  "{" +:+ quoted "descriptor" +:+ ":" +:+ quoted "link_redirection" +:+ "}".

Definition report_json : string :=
  "{" +:+ quoted "reasonType" +:+ ":" +:+ quoted "com.atproto.moderation.defs#reasonOther" +:+
  "," +:+ quoted "subject" +:+ ":{" +:+ quoted "did" +:+ ":" +:+ quoted spammer +:+ "}}".


Definition createReport_request : http_request :=
  {| method := POST;
     url := "https://pds.example/xrpc/com.atproto.moderation.createReport";
     headers :=
       [ ("Content-Type"%string, "application/json"%string);
         ("Atproto-Accept-Labelers"%string, "did:plc:labeler"%string);
         ("Atproto-Proxy"%string, "did:plc:labeler#atproto_labeler"%string);
         ("Authorization"%string, "Bearer access-2"%string) ];
     arguments := [];
     data := Some report_json |}.

(** Alerts at 4, 16, 64, ... in every category. *)
Definition factors : Checker.settings :=
  {| Checker.ImageFactor := 4; Checker.VideoFactor := 4;
     Checker.RecordFactor := 4; Checker.LinkFactor := 4 |}.

(** A stand-in for the URL parser: an http or https scheme, then the host up
    to the first slash. *)
Fixpoint until_slash (s : string) : string :=
  match s with
  | EmptyString => EmptyString
  | String ch rest => if Ascii.eqb ch "/" then EmptyString else String ch (until_slash rest)
  end.

Definition parse (s : string) : Checker.parse_result :=
  if String.prefix "https://" s then Checker.parsed (until_slash (substr_from 8 s))
  else if String.prefix "http://" s then Checker.parsed (until_slash (substr_from 7 s))
  else Checker.parse_error "invalid scheme".

(** Libraries with a matcher that answers every candidate with [matches]. *)
Definition libraries (matches : list match_result) : Checker.env :=
  {| Checker.parse_uri := parse;
     Checker.print_cid := fun cid => cid;
     Checker.all_matches_for_candidates := fun _ => matches |}.

Definition scam_rule : match_result :=
  {| rule := "scam-landing"; matched := "landing.example" |}.

(** A checker that has seen nothing, whitelists bsky.app and strips www. *)
Definition checker0 : Checker.embed_checker :=
  Checker.unseen "www." {[ "bsky.app"%string ]}.

(** The HTTP layer as [start] configures it, [properties.maxRedirects]
    being [limit]: each redirect goes to [redirectFn]; when their number
    passes the limit, [Execute] throws within the lambda and
    [check_done.get()] rethrows. *)
Definition follow (limit : nat) (chain : list string) : Handler.redirect_run :=
  if (limit <? List.length chain)%nat
  then Handler.started (List.map (fun u => (302, u)) (firstn (S limit) chain))
         (Raises (ConstraintException "Too many redirects"))
  else Handler.started (List.map (fun u => (302, u)) chain) (Returns tt).

Definition record_path : string := "app.bsky.feed.post/3lgabcxyz".

Definition short_link : string := "https://short.example/a".

Definition landing : string := "https://landing.example/offer".

Definition whitelisted : string := "https://www.bsky.app/profile/someone".

(** Six redirects that stay on the whitelisted host. *)
Definition six_hops : list string :=
  [ "https://www.bsky.app/1"; "https://www.bsky.app/2"; "https://www.bsky.app/3";
    "https://www.bsky.app/4"; "https://www.bsky.app/5"; "https://www.bsky.app/6" ]%string.

(** The handler while [short_link] is being followed. *)
Definition following : Handler.embed_handler :=
  {| Handler._checker := checker0; Handler._repo := spammer; Handler._path := record_path;
     Handler._root_url := short_link; Handler._uri_chain := [short_link] |}.

(** The handler the worker constructs for an embed of the spammer's post. *)
Definition starting : Handler.embed_handler :=
  Handler.handler_for checker0 spammer record_path.

(** A post with the short link twice and an image, and another account's
    post with the same link. *)
Definition post_embeds : Worker.embed_info_list :=
  {| Worker._did := spammer; Worker._path := record_path;
     Worker._embeds :=
       [ Worker.embed_external short_link; Worker.embed_image "bafkreiimage";
         Worker.embed_external short_link ] |}.

Definition repost_embeds : Worker.embed_info_list :=
  {| Worker._did := "did:plc:other"; Worker._path := "app.bsky.feed.post/3lgdefuvw";
     Worker._embeds := [Worker.embed_external short_link] |}.

Definition http_layer (matches : list match_result) (run : Handler.redirect_run)
    : Handler.env :=
  {| Handler.libs := libraries matches;
     Handler.rest_client := fun _ _ => run |}.

End Scenario.

(** * Proofs *)

(** Unfold the monad's operations. *)
Ltac step :=
  cbn -[Session.refresh_due Session.time_to_expiry contains Session.InvalidToken
        Session.refreshSession Session.createSession].

Ltac run :=
  unfold bind, get, when, log, tell, ret, modify, throw, try_catch, ask, zoom; step.

(** Case on every answer of the environment that the goal inspects. *)
Ltac outcomes :=
  repeat match goal with
  | |- context [match ?x with Returns _ => _ | Raises _ => _ end] => destruct x eqn:?
  | |- context [if contains ?a ?b then _ else _] => destruct (contains a b) eqn:?
  end.

(** ** Session manager *)

Section SessionFacts.
Import Session.
Variable cfg : config.
Variable E : env.

Ltac session_run :=
  unfold check_refresh, internal_connect, do_post, decode_expires_at, now; run.

Ltac read_posts :=
  unfold posts_to; cbn [trace emit bump snd]; rewrite <- ?app_assoc, ?omap_app;
  try reflexivity; cbn; rewrite ?app_nil_r; try reflexivity.

(** With a positive tick rate and a buffer that is not negative, the refresh
    test of the code is "expiry strictly before the end of the buffer". *)
Lemma refresh_due_spec s t :
  0 < ticks_per_ms cfg -> 0 <= AccessExpiryBuffer cfg ->
  refresh_due cfg s t = true <-> _access_expiry s < buffer_end cfg t.
Proof.
  intros Hk HB. unfold refresh_due, time_to_expiry, buffer_end.
  rewrite orb_true_iff, !Z.ltb_lt.
  destruct (Z.lt_ge_cases (_access_expiry s) t) as [Hlt | Hge].
  - split; [nia | auto].
  - rewrite Z.quot_div_nonneg by lia.
    split.
    + intros [H | H]; [lia |].
      pose proof (Z.mod_pos_bound (_access_expiry s - t) (ticks_per_ms cfg) Hk).
      pose proof (Z.div_mod (_access_expiry s - t) (ticks_per_ms cfg)). nia.
    + intros H. right. apply Z.div_lt_upper_bound; lia.
Qed.

Lemma check_refresh_idle s o :
  refresh_due cfg s (system_clock_now E (tick o)) = false ->
  check_refresh cfg E s o =
    (Normal tt, s,
     bump (if is_empty (refreshJwt (_tokens s))
           then emit (Log Info "Skip refresh: no tokens" []) o else o)).
Proof.
  intros H. session_run.
  destruct (is_empty (refreshJwt (_tokens s))); step; rewrite H; reflexivity.
Qed.

Lemma check_refresh_due_posts s o :
  refresh_due cfg s (system_clock_now E (tick o)) = true ->
  posts_to refreshSession (check_refresh cfg E s o).2 =
  posts_to refreshSession o ++ [refresh_call s].
Proof.
  intros H. session_run.
  destruct (is_empty (refreshJwt (_tokens s)));
    step; rewrite H;
    outcomes; read_posts.
Qed.

Lemma check_refresh_idle_posts s o p :
  refresh_due cfg s (system_clock_now E (tick o)) = false ->
  posts_to p (check_refresh cfg E s o).2 = posts_to p o.
Proof.
  intros H. rewrite check_refresh_idle by exact H.
  destruct (is_empty _); read_posts.
Qed.

Lemma check_refresh_idle_tick s o :
  refresh_due cfg s (system_clock_now E (tick o)) = false ->
  tick (check_refresh cfg E s o).2 = S (tick o).
Proof.
  intros H. rewrite check_refresh_idle by exact H. destruct (is_empty _); reflexivity.
Qed.

(** Calls made while no refresh is due change nothing and post nothing. *)
Lemma check_refresh_times_idle n : forall s o,
  (forall j, (tick o <= j < tick o + n)%nat ->
     refresh_due cfg s (system_clock_now E j) = false) ->
  (check_refresh_times cfg E n s o).1 = (Normal tt, s) /\
  forall p, posts_to p (check_refresh_times cfg E n s o).2 = posts_to p o.
Proof.
  induction n as [| n IH]; intros s o Hidle.
  - split; reflexivity.
  - assert (H0 : refresh_due cfg s (system_clock_now E (tick o)) = false)
      by (apply Hidle; lia).
    pose proof (check_refresh_idle_posts s o) as Hposts.
    pose proof (check_refresh_idle_tick s o H0) as Htick.
    assert (Hstep : check_refresh_times cfg E (S n) s o =
                    check_refresh_times cfg E n s (check_refresh cfg E s o).2).
    { cbn [check_refresh_times]. unfold bind.
      rewrite (check_refresh_idle s o H0). reflexivity. }
    rewrite Hstep.
    destruct (IH s (check_refresh cfg E s o).2) as [Hres Hsame].
    + intros j Hj. apply Hidle. lia.
    + split; [exact Hres |].
      intros p. rewrite Hsame. apply Hposts, H0.
Qed.

(** C5 (as amended). A call of [check_refresh] posts refreshSession once
    when the access token expires strictly before the end of the buffer
    ([expiry < now + buffer]: expired, or time to expiry below the buffer),
    and not at all otherwise; and the calls that follow, as long as the
    clock readings stay a full buffer away from the expiry the session then
    holds, post nothing and leave the session as it is. *)
Theorem check_refresh_refreshes_inside_buffer s o n :
  0 < ticks_per_ms cfg -> 0 <= AccessExpiryBuffer cfg ->
  (forall j, (tick (check_refresh cfg E s o).2 <= j < tick (check_refresh cfg E s o).2 + n)%nat ->
     buffer_end cfg (system_clock_now E j) <= _access_expiry (check_refresh cfg E s o).1.2) ->
  posts_to refreshSession (check_refresh cfg E s o).2 =
    posts_to refreshSession o ++
    (if _access_expiry s <? buffer_end cfg (system_clock_now E (tick o))
     then [refresh_call s] else []) /\
  (check_refresh_times cfg E n (check_refresh cfg E s o).1.2 (check_refresh cfg E s o).2).1 =
    (Normal tt, (check_refresh cfg E s o).1.2) /\
  forall p,
    posts_to p
      (check_refresh_times cfg E n (check_refresh cfg E s o).1.2 (check_refresh cfg E s o).2).2 =
    posts_to p (check_refresh cfg E s o).2.
Proof.
  intros Hk HB Hlater. split.
  - destruct (Z.ltb_spec (_access_expiry s) (buffer_end cfg (system_clock_now E (tick o))))
      as [Hlt | Hge].
    + apply check_refresh_due_posts, refresh_due_spec; assumption.
    + rewrite app_nil_r. apply check_refresh_idle_posts.
      destruct (refresh_due cfg s (system_clock_now E (tick o))) eqn:Hdue; [| reflexivity].
      apply refresh_due_spec in Hdue; [lia | assumption | assumption].
  - apply check_refresh_times_idle. intros j Hj.
    destruct (refresh_due cfg _ (system_clock_now E j)) eqn:Hdue; [| reflexivity].
    apply refresh_due_spec in Hdue; [| assumption | assumption].
    specialize (Hlater j Hj). lia.
Qed.

(** C4. When the refreshSession POST fails with an error whose text holds
    the invalid-token marker, [check_refresh] posts createSession exactly
    once, with the stored credentials, and if that call returns tokens that
    decode, the session holds them with their decoded expiries; when the text
    does not hold the marker, the same exception reaches the caller, the
    session is untouched and createSession is not posted. *)
Theorem check_refresh_reconnects_on_invalid_token s o e :
  refresh_due cfg s (system_clock_now E (tick o)) = true ->
  client_do_post E (S (tick o)) (refresh_call s) = Raises e ->
  (contains (what e) InvalidToken = true ->
     posts_to createSession (check_refresh cfg E s o).2 =
       posts_to createSession o ++ [connect_call s] /\
     forall t access refresh,
       client_do_post E (S (S (tick o))) (connect_call s) = Returns t ->
       jwt_expires_at E (accessJwt t) = Returns access ->
       jwt_expires_at E (refreshJwt t) = Returns refresh ->
       (check_refresh cfg E s o).1 =
         (Normal tt,
          {| _credentials := _credentials s; _tokens := t;
             _access_expiry := access; _refresh_expiry := refresh |})) /\
  (contains (what e) InvalidToken = false ->
     (check_refresh cfg E s o).1 = (Thrown e, s) /\
     posts_to createSession (check_refresh cfg E s o).2 = posts_to createSession o).
Proof.
  intros Hdue Hpost. unfold refresh_call in Hpost. unfold connect_call.
  split; intros Hmark.
  - split.
    + session_run.
      destruct (is_empty (refreshJwt (_tokens s)));
        step;
        rewrite Hdue; step; rewrite Hpost; step;
        rewrite Hmark; outcomes; read_posts.
    + intros t access refresh Hconnect Haccess Hrefresh. session_run.
      destruct (is_empty (refreshJwt (_tokens s)));
        step;
        rewrite Hdue; step; rewrite Hpost; step;
        rewrite Hmark; step; rewrite Hconnect; step;
        rewrite Haccess, Hrefresh; reflexivity.
  - session_run.
    destruct (is_empty (refreshJwt (_tokens s)));
      step;
      rewrite Hdue; step; rewrite Hpost; step;
      rewrite Hmark; (split; [reflexivity | read_posts]).
Qed.

(** An error of the JWT decoder after a refresh that succeeded propagates as
    well; the new tokens stay stored. *)
Lemma check_refresh_decode_error_propagates s o t e :
  refresh_due cfg s (system_clock_now E (tick o)) = true ->
  client_do_post E (S (tick o)) (refresh_call s) = Returns t ->
  jwt_expires_at E (accessJwt t) = Raises e ->
  contains (what e) InvalidToken = false ->
  (check_refresh cfg E s o).1 = (Thrown e, set_tokens t s).
Proof.
  intros Hdue Hpost Hdecode Hmark. unfold refresh_call in Hpost. session_run.
  destruct (is_empty (refreshJwt (_tokens s))); step;
    rewrite Hdue; step; rewrite Hpost; step; rewrite Hdecode; step; rewrite Hmark;
    reflexivity.
Qed.

(** C10. With no refresh token stored and the access expiry in the past,
    [check_refresh] logs that it skips and goes on all the same: the next
    thing it does is log the refresh and post refreshSession, while the
    session still exposes the empty refresh token. *)
Theorem check_refresh_without_tokens_still_posts s o :
  refreshJwt (_tokens s) = EmptyString ->
  _access_expiry s < system_clock_now E (tick o) ->
  refreshJwt (post_tokens (refresh_call s)) = EmptyString /\
  exists rest,
    trace (check_refresh cfg E s o).2 =
    trace o ++
    [ Log Info "Skip refresh: no tokens" [];
      Log Info "Refresh access token, expiry in {} ms"
        [a_num (time_to_expiry cfg s (system_clock_now E (tick o)))];
      DoPost (refresh_call s) ] ++ rest.
Proof.
  intros Hnone Hpast. split; [exact Hnone |].
  assert (Hdue : refresh_due cfg s (system_clock_now E (tick o)) = true).
  { unfold refresh_due. apply orb_true_iff. left. apply Z.ltb_lt, Hpast. }
  session_run. rewrite Hnone. step.
  rewrite Hdue. unfold refresh_call.
  outcomes; cbn [trace emit bump snd]; rewrite <- ?app_assoc; cbn [app];
    eexists; f_equal; repeat f_equal; try reflexivity.
Qed.

End SessionFacts.

Section SessionRuns.
Import Session Scenario.

(** Buffer 60 s, access token expiring in 30 s: the first call refreshes
    once, and three more calls against the two-hour token post nothing. *)
Lemma refresh_inside_buffer_run :
  posts_to refreshSession
    (check_refresh cfg60 pds_granting (session_expiring (noon + seconds 30)) io0).2 =
    [refresh_call (session_expiring (noon + seconds 30))] /\
  forall p,
    posts_to p
      (check_refresh_times cfg60 pds_granting 3
         (check_refresh cfg60 pds_granting (session_expiring (noon + seconds 30)) io0).1.2
         (check_refresh cfg60 pds_granting (session_expiring (noon + seconds 30)) io0).2).2 =
    posts_to p (check_refresh cfg60 pds_granting (session_expiring (noon + seconds 30)) io0).2.
Proof.
  destruct (check_refresh_refreshes_inside_buffer cfg60 pds_granting
              (session_expiring (noon + seconds 30)) io0 3) as (Hfirst & _ & Hlater).
  - reflexivity.
  - vm_compute. discriminate.
  - intros j _. vm_compute. discriminate.
  - split; [exact Hfirst | exact Hlater].
Defined.

(** At the boundary, [now + buffer = expiry], the code does not refresh. *)
Lemma no_refresh_when_buffer_just_reached :
  ~ refreshes_iff_buffer_reached cfg60 pds_granting (session_expiring (noon + seconds 60)) io0.
Proof.
  intros [_ Hclaim].
  destruct Hclaim as [call Hcall].
  - vm_compute. discriminate.
  - vm_compute in Hcall. discriminate Hcall.
Qed.

(** The refresh is rejected with the invalid-token body: one createSession
    with the stored credentials, and the session holds the new tokens with
    their expiries. *)
Lemma reconnect_run :
  posts_to createSession
    (check_refresh cfg60 pds_rejecting_refresh (session_expiring (noon + seconds 30)) io0).2 =
    [connect_call (session_expiring (noon + seconds 30))] /\
  (check_refresh cfg60 pds_rejecting_refresh (session_expiring (noon + seconds 30)) io0).1 =
    (Normal tt,
     {| _credentials := credentials; _tokens := new_tokens;
        _access_expiry := noon + seconds 7200; _refresh_expiry := noon + seconds 86400 |}).
Proof.
  destruct (check_refresh_reconnects_on_invalid_token cfg60 pds_rejecting_refresh
              (session_expiring (noon + seconds 30)) io0 invalid_token_error)
    as [Hmarked _].
  - vm_compute. reflexivity.
  - reflexivity.
  - destruct Hmarked as [Hposts Hstate]; [vm_compute; reflexivity |].
    split; [exact Hposts |].
    apply (Hstate new_tokens); reflexivity.
Defined.

(** A session that never connected, at noon: the skip is logged and the
    refresh is posted with the empty tokens. *)
Lemma never_connected_run :
  refreshJwt (post_tokens (refresh_call (fresh credentials))) = EmptyString /\
  exists rest,
    trace (check_refresh cfg60 pds_granting (fresh credentials) io0).2 =
    trace io0 ++
    [ Log Info "Skip refresh: no tokens" [];
      Log Info "Refresh access token, expiry in {} ms"
        [a_num (time_to_expiry cfg60 (fresh credentials) (system_clock_now pds_granting (tick io0)))];
      DoPost (refresh_call (fresh credentials)) ] ++ rest.
Proof.
  apply (check_refresh_without_tokens_still_posts cfg60 pds_granting (fresh credentials) io0).
  - reflexivity.
  - vm_compute. reflexivity.
Defined.

End SessionRuns.

(** ** Client facade *)

Section ClientFacts.
Import Client.
Variable cfg : Session.config.
Context {R : Type}.
Variable E : env R.
Variable response0 : R.
Variable printed : R -> list arg.

Abbreviation clock := (Session.system_clock_now (session_env E)).
Abbreviation idle c k := (Session.refresh_due cfg (_session c) (clock k) = false).

Lemma set_session_same c : set_session (_session c) c = c.
Proof. destruct c; reflexivity. Qed.

Lemma client_check_refresh_idle c o :
  idle c (tick o) ->
  check_refresh cfg E c o =
    (Normal tt, c,
     bump (if is_empty (refreshJwt (Session._tokens (_session c)))
           then emit (Log Info "Skip refresh: no tokens" []) o else o)).
Proof.
  intros H. unfold check_refresh, zoom.
  rewrite (check_refresh_idle cfg (session_env E) (_session c) o H).
  rewrite set_session_same. reflexivity.
Qed.

Ltac client_step := cbn -[check_refresh Session.refresh_due].

Ltac one_pass Hlt :=
  cbn [do_post_from create_record_from put_record_from get_record_from
       emit_event_from do_get_from send_report_from];
  rewrite (proj2 (Nat.ltb_lt _ _) Hlt);
  unfold execute; unfold bind, get, when, log, tell, ret, modify, throw, try_catch, ask.

Ltac pass_idle Hidle c o :=
  rewrite (client_check_refresh_idle c o Hidle);
  destruct (is_empty (refreshJwt (Session._tokens (_session c)))).

Ltac read_requests :=
  unfold requests; cbn [trace emit bump snd]; rewrite <- ?app_assoc, ?omap_app;
  try reflexivity; cbn; rewrite ?app_nil_r; try reflexivity.

Ltac fatal_case Hfail Hkind e :=
  client_step; rewrite Hfail; client_step;
  destruct e as [code w | w | w]; cbn [is_eof] in Hkind; try rewrite Hkind;
  (split; [reflexivity | eexists; read_requests]).

Section OnePass.
Variables (fuel retries : nat) (c : client) (o : io) (e : exn).
Hypothesis Hlt : (retries < 5)%nat.
Hypothesis Hkind : is_eof e = false.

Section Refreshing.
Hypothesis Hidle : idle c (tick o).
Hypothesis Hfail : forall request, process_with_promise E (S (tick o)) request = Raises e.

Lemma do_post_from_fatal use_refresh no_log relative_path body_str :
  let run := do_post_from cfg E response0 printed (S fuel) retries use_refresh no_log
               relative_path body_str c o in
  run.1 = (Thrown e, c) /\ exists request, requests run.2 = requests o ++ [request].
Proof.
  one_pass Hlt. pass_idle Hidle c o; destruct no_log; fatal_case Hfail Hkind e.
Qed.

Lemma create_record_from_fatal record_str :
  let run := create_record_from cfg E response0 printed (S fuel) retries record_str c o in
  run.1 = (Thrown e, c) /\ exists request, requests run.2 = requests o ++ [request].
Proof. one_pass Hlt. pass_idle Hidle c o; fatal_case Hfail Hkind e. Qed.

Lemma put_record_from_fatal record_str :
  let run := put_record_from cfg E response0 (S fuel) retries record_str c o in
  run.1 = (Thrown e, c) /\ exists request, requests run.2 = requests o ++ [request].
Proof. one_pass Hlt. pass_idle Hidle c o; fatal_case Hfail Hkind e. Qed.

Lemma emit_event_from_fatal body :
  let run := emit_event_from cfg E response0 printed (S fuel) retries body c o in
  run.1 = (Thrown e, c) /\ exists request, requests run.2 = requests o ++ [request].
Proof. one_pass Hlt. pass_idle Hidle c o; fatal_case Hfail Hkind e. Qed.

End Refreshing.

Section Reading.
Hypothesis Hfail : forall request, process_with_promise E (tick o) request = Raises e.

Lemma get_record_from_fatal did collection rkey :
  let run := get_record_from E response0 (S fuel) retries did collection rkey c o in
  run.1 = (Thrown e, c) /\ exists request, requests run.2 = requests o ++ [request].
Proof. one_pass Hlt. fatal_case Hfail Hkind e. Qed.

Lemma do_get_from_fatal relative_path callback :
  let run := do_get_from E response0 (S fuel) retries relative_path callback c o in
  run.1 = (Thrown e, c) /\ exists request, requests run.2 = requests o ++ [request].
Proof. one_pass Hlt. fatal_case Hfail Hkind e. Qed.

End Reading.
End OnePass.

Ltac count_requests :=
  unfold requests; cbn [trace emit bump snd]; rewrite ?omap_app, ?length_app; cbn; lia.


Lemma requests_emit e o :
  requests (emit e o) = requests o ++ match e with Execute r => [r] | _ => [] end.
Proof.
  unfold requests, emit. cbn [trace]. rewrite omap_app. destruct e; reflexivity.
Qed.

Section EofRuns.
Variables (c : client) (code : error_code) (w : string).
Hypothesis Heof : is_asio_eof code = true.
Let e := system_error code w.




End EofRuns.




(** An exception that is not the read-EOF ends each of the six operations on
    the spot and reaches the caller. *)
Lemma perform_fatal op c o e :
  (refreshes_first op = true -> idle c (tick o)) ->
  (forall request,
     process_with_promise E (if refreshes_first op then S (tick o) else tick o) request =
     Raises e) ->
  is_eof e = false ->
  (perform cfg E response0 printed op c o).1 = (Thrown e, c) /\
  exists request, requests (perform cfg E response0 printed op c o).2 = requests o ++ [request].
Proof.
  intros Hidle Hfail Hkind.
  destruct op; cbn [perform refreshes_first] in *.
  - apply do_post_from_fatal; [lia | exact Hkind | exact (Hidle eq_refl) | exact Hfail].
  - apply create_record_from_fatal; [lia | exact Hkind | exact (Hidle eq_refl) | exact Hfail].
  - apply put_record_from_fatal; [lia | exact Hkind | exact (Hidle eq_refl) | exact Hfail].
  - apply get_record_from_fatal; [lia | exact Hkind | exact Hfail].
  - apply emit_event_from_fatal; [lia | exact Hkind | exact (Hidle eq_refl) | exact Hfail].
  - apply do_get_from_fatal; [lia | exact Hkind | exact Hfail].
Qed.

(** [send_report] outside dry-run mode, in terms of its loop. *)
Lemma send_report_not_dry did reason_str reason_name body c o :
  _dry_run c = false ->
  send_report cfg E printed did reason_str reason_name body c o =
  let o1 := if _is_ready c then o
            else emit (Log Error "Bluesky client not ready, skip report of {}" [a_str body]) o in
  let loop := send_report_from cfg E printed 5 0 did reason_str reason_name body c o1 in
  match loop.1.1 with
  | Normal true => (Normal tt, loop.1.2, loop.2)
  | Normal false =>
    (Normal tt, loop.1.2, emit (Increment "automation" "report_error" reason_name) loop.2)
  | Thrown e => (Thrown e, loop.1.2, loop.2)
  end.
Proof.
  intros Hdry. unfold send_report, bind, get, when, log, tell, ret.
  cbn -[send_report_from]. rewrite Hdry.
  destruct (_is_ready c); cbn -[send_report_from];
    match goal with |- context [send_report_from ?a ?b ?p ?f ?r ?d ?rs ?rn ?bd ?c' ?o'] =>
      destruct (send_report_from a b p f r d rs rn bd c' o') as [[[[|] | exc] c''] o'']
    end; reflexivity.
Qed.



End ClientFacts.

Section ClientRuns.
Import Client Scenario.



(** C2, at the failing inputs.  The client is not ready and not in dry-run
    mode: [send_report] logs that it skips the report and goes on.  With a
    session that holds a valid token it posts the report to createReport and
    counts it as sent.  With a session that never connected it has the
    session post refreshSession before anything else. *)
Theorem send_report_not_ready_still_posts :
  _is_ready (client_with false false) = false /\
  trace (send_report cfg60 (server (Returns recorded)) printed spammer reason_json
           "link_redirection" report_json (client_with false false) io0).2 =
    [ Log Error "Bluesky client not ready, skip report of {}" [a_str report_json];
      Execute createReport_request;
      Log Info "Report of {} {} recorded at {}, reporter {} id={}"
        (a_str spammer :: a_str reason_json :: printed recorded);
      Increment "automation" "report" "link_redirection" ] /\
  requests (send_report cfg60 (server (Returns recorded)) printed spammer reason_json
              "link_redirection" report_json (client_with false false) io0).2 =
    [createReport_request] /\
  _is_ready unconnected_client = false /\
  Session.posts_to Session.refreshSession
    (send_report cfg60 server_unauthorized printed spammer reason_json
       "link_redirection" report_json unconnected_client io0).2 =
    [Session.refresh_call (Session.fresh credentials)].
Proof. vm_compute. repeat split. Qed.


(** The connection is reset on every read: [create_record] hands back the
    default constructed response after its fifth request, where [do_post]
    and [get_record] throw. *)
Example create_record_five_eofs :
  (create_record cfg60 (server (Raises eof_error)) no_response printed report_json
     (client_with false true) io0).1.1 = Normal no_response /\
  List.length
    (requests (create_record cfg60 (server (Raises eof_error)) no_response printed
                 report_json (client_with false true) io0).2) = 5%nat.
Proof. vm_compute. split; reflexivity. Qed.

End ClientRuns.

(** ** Strings *)

Section StringFacts.

Lemma length_append (s t : string) :
  String.length (s +:+ t) = (String.length s + String.length t)%nat.
Proof. induction s as [| ch s IH]; simpl; [reflexivity | f_equal; exact IH]. Qed.

Lemma prefix_append (p s : string) : String.prefix p (p +:+ s) = true.
Proof.
  induction p as [| ch p IH]; simpl; [destruct s; reflexivity |].
  destruct (ascii_dec ch ch); [exact IH | congruence].
Qed.

Lemma prefix_split (p : string) : forall s,
  String.prefix p s = true -> exists rest, s = p +:+ rest.
Proof.
  induction p as [| ch p IH]; intros s H.
  - exists s. reflexivity.
  - destruct s as [| ch' s]; simpl in H; [discriminate |].
    destruct (ascii_dec ch ch'); [| discriminate]. subst ch'.
    destruct (IH s H) as [rest ->]. exists rest. reflexivity.
Qed.

Lemma substring_all (s : string) : String.substring 0 (String.length s) s = s.
Proof. induction s as [| ch s IH]; simpl; [reflexivity | f_equal; exact IH]. Qed.

Lemma substring_head (s t : string) :
  String.substring 0 (String.length s) (s +:+ t) = s.
Proof.
  induction s as [| ch s IH]; simpl; [destruct t; reflexivity | f_equal; exact IH].
Qed.

Lemma substring_tail (s t : string) :
  String.substring (String.length s) (String.length t) (s +:+ t) = t.
Proof. induction s as [| ch s IH]; simpl; [apply substring_all | exact IH]. Qed.

Lemma substring_split (n : nat) : forall s,
  (n <= String.length s)%nat ->
  s = String.substring 0 n s +:+ String.substring n (String.length s - n) s.
Proof.
  induction n as [| n IH]; intros s Hn.
  - simpl. rewrite Nat.sub_0_r, substring_all. destruct s; reflexivity.
  - destruct s as [| ch s]; simpl in Hn; [lia |].
    change (String ch s =
            String ch (String.substring 0 n s +:+
                       String.substring n (String.length s - n) s)).
    f_equal. apply IH. lia.
Qed.

Lemma starts_with_spec (s p : string) :
  starts_with s p = true <-> exists rest, s = p +:+ rest.
Proof.
  unfold starts_with. split.
  - apply prefix_split.
  - intros [rest ->]. apply prefix_append.
Qed.

Lemma ends_with_spec (s p : string) :
  ends_with s p = true <-> exists stem, s = stem +:+ p.
Proof.
  unfold ends_with. rewrite andb_true_iff, Nat.leb_le, String.eqb_eq. split.
  - intros [Hlen Hsub].
    exists (String.substring 0 (String.length s - String.length p) s).
    pose proof (substring_split (String.length s - String.length p) s ltac:(lia)) as Hs.
    replace (String.length s - (String.length s - String.length p))%nat
      with (String.length p) in Hs by lia.
    rewrite Hsub in Hs. exact Hs.
  - intros [stem ->]. rewrite (length_append stem p). split; [lia |].
    replace (String.length stem + String.length p - String.length p)%nat
      with (String.length stem) by lia.
    apply substring_tail.
Qed.

End StringFacts.

(** ** Embed checker *)

Section AdmissionFacts.
Import Checker.
Variable E : env.

Lemma target_of_stripped stem : target_of (stem +:+ UrlSuffix) = stem.
Proof.
  unfold target_of.
  rewrite (proj2 (ends_with_spec (stem +:+ UrlSuffix) UrlSuffix)) by (exists stem; reflexivity).
  unfold substr_to. rewrite length_append.
  replace (String.length stem + String.length UrlSuffix - String.length UrlSuffix)%nat
    with (String.length stem) by lia.
  apply substring_head.
Qed.

Lemma target_of_plain uri :
  (forall stem, uri <> stem +:+ UrlSuffix) -> target_of uri = uri.
Proof.
  intros Hplain. unfold target_of.
  destruct (ends_with uri UrlSuffix) eqn:Hends; [| reflexivity].
  apply ends_with_spec in Hends as [stem ->]. destruct (Hplain stem). reflexivity.
Qed.

Lemma trimmed_host_stripped c rest :
  trimmed_host c (_uri_host_prefix c +:+ rest) = rest.
Proof.
  unfold trimmed_host.
  rewrite (proj2 (starts_with_spec _ _)) by (exists rest; reflexivity).
  unfold substr_from. rewrite length_append.
  replace (String.length (_uri_host_prefix c) + String.length rest -
           String.length (_uri_host_prefix c))%nat
    with (String.length rest) by lia.
  apply substring_tail.
Qed.

Lemma trimmed_host_plain c host :
  (forall rest, host <> _uri_host_prefix c +:+ rest) -> trimmed_host c host = host.
Proof.
  intros Hplain. unfold trimmed_host.
  destruct (starts_with host (_uri_host_prefix c)) eqn:Hstarts; [| reflexivity].
  apply starts_with_spec in Hstarts as [rest ->]. destruct (Hplain rest). reflexivity.
Qed.

(** C8. [should_process_uri] parses the URI without its trailing ellipsis
    (the three bytes e2 80 a6), if it has one; on a parse error it logs the
    URI, counts it as malformed and returns false; otherwise it takes the
    host without the configured prefix, if it has it, and returns false,
    counting a whitelist skip, when that host is in the whitelist, and true,
    with no output, when it is not.  The checker itself is not changed. *)
Theorem should_process_uri_admission uri c o :
  ((forall stem, uri = stem +:+ UrlSuffix -> target_of uri = stem) /\
   ((forall stem, uri <> stem +:+ UrlSuffix) -> target_of uri = uri)) /\
  (forall host,
     (forall rest, host = _uri_host_prefix c +:+ rest -> trimmed_host c host = rest) /\
     ((forall rest, host <> _uri_host_prefix c +:+ rest) -> trimmed_host c host = host)) /\
  (should_process_uri E uri c o).1.2 = c /\
  match parse_uri E (target_of uri) with
  | parse_error message =>
    (should_process_uri E uri c o).1.1 = Normal false /\
    trace (should_process_uri E uri c o).2 =
      trace o ++ [ Log Warning "Skip malformed URI {}, error {}" [a_str uri; a_str message];
                   Increment "embed_stats" "links" "malformed" ]
  | parsed host =>
    if decide (trimmed_host c host ∈ _whitelist_uris c) then
      (should_process_uri E uri c o).1.1 = Normal false /\
      trace (should_process_uri E uri c o).2 =
        trace o ++ [Increment "embed_stats" "links" "whitelist_skipped"]
    else
      (should_process_uri E uri c o).1.1 = Normal true /\
      (should_process_uri E uri c o).2 = o
  end.
Proof.
  split; [split |].
  - intros stem ->. apply target_of_stripped.
  - apply target_of_plain.
  - split.
    + intros host. split.
      * intros rest ->. apply trimmed_host_stripped.
      * apply trimmed_host_plain.
    + unfold should_process_uri.
      destruct (parse_uri E (target_of uri)) as [host | message];
        unfold bind, get, log, tell, ret; cbn -[target_of trimmed_host].
      * destruct (decide (trimmed_host c host ∈ _whitelist_uris c));
          cbn -[target_of trimmed_host]; repeat split; reflexivity.
      * repeat split. rewrite <- app_assoc. reflexivity.
Qed.

End AdmissionFacts.

Section AlertFacts.
Import Checker.

Lemma pow_step (F : Z) (j : nat) : F ^ Z.of_nat (S j) = F ^ Z.of_nat j * F.
Proof. rewrite Nat2Z.inj_succ, Z.pow_succ_r by lia. lia. Qed.

Lemma pow_above (F : Z) (j : nat) : 2 <= F -> Z.of_nat j < F ^ Z.of_nat j.
Proof. intros HF. apply Z.pow_gt_lin_r; lia. Qed.

Lemma pow_mono (F : Z) (i j : nat) :
  2 <= F -> (i <= j)%nat -> F ^ Z.of_nat i <= F ^ Z.of_nat j.
Proof. intros HF Hij. apply Z.pow_le_mono_r; lia. Qed.

Lemma pow_strict (F : Z) (i j : nat) :
  2 <= F -> F ^ Z.of_nat i < F ^ Z.of_nat j -> (i < j)%nat.
Proof.
  intros HF Hlt. destruct (Nat.lt_ge_cases i j) as [H | H]; [exact H |].
  pose proof (pow_mono F j i HF H). lia.
Qed.

(** Walking the milestones from [F^j] finds [n] exactly when [n] is one of
    [F^j], [F^(j+1)], ... *)
Lemma milestone_spec (F n : Z) : 2 <= F -> forall fuel j,
  n < Z.of_nat fuel + Z.of_nat j ->
  milestone fuel (F ^ Z.of_nat j) n F = true <->
  exists i, (j <= i)%nat /\ n = F ^ Z.of_nat i.
Proof.
  intros HF. induction fuel as [| fuel IH]; intros j Hfuel; cbn [milestone].
  - split; [discriminate |]. intros (i & Hi & ->).
    pose proof (pow_above F i HF). lia.
  - destruct (Z.eqb_spec (F ^ Z.of_nat j) n) as [Heq | Hne].
    + split; [| reflexivity]. intros _. exists j. split; [lia | congruence].
    + destruct (Z.ltb_spec n (F ^ Z.of_nat j)) as [Hlt | Hge].
      * split; [discriminate |]. intros (i & Hi & ->).
        pose proof (pow_mono F j i HF Hi). lia.
      * rewrite <- pow_step. rewrite IH by lia. split.
        -- intros (i & Hi & ->). exists i. split; [lia | reflexivity].
        -- intros (i & Hi & ->). exists i. split; [| reflexivity].
           destruct (Nat.eq_dec i j) as [-> | Hij]; [congruence | lia].
Qed.

Lemma alert_needed_spec (F n : Z) :
  2 <= F ->
  alert_needed n F = true <-> exists j, (1 <= j)%nat /\ n = F ^ Z.of_nat j.
Proof.
  intros HF. unfold alert_needed.
  replace F with (F ^ Z.of_nat 1) at 1 by (cbn; lia).
  apply milestone_spec; [exact HF |]. lia.
Qed.

(** One more sighting moves the floor of the logarithm exactly when the new
    count is a power of the factor. *)
Lemma log_floor_step (F : Z) (n L : nat) :
  2 <= F ->
  F ^ Z.of_nat L <= Z.of_nat (S n) < F ^ Z.of_nat (S L) ->
  let L' := if alert_needed (Z.of_nat (S (S n))) F then S L else L in
  F ^ Z.of_nat L' <= Z.of_nat (S (S n)) < F ^ Z.of_nat (S L').
Proof.
  intros HF [Hlo Hhi]. cbv zeta.
  destruct (alert_needed (Z.of_nat (S (S n))) F) eqn:Halert.
  - apply alert_needed_spec in Halert as (j & Hj & Hpow); [| exact HF].
    assert (Hgt : (L < j)%nat) by (apply (pow_strict F L j HF); lia).
    assert (Hle : (j <= S L)%nat).
    { destruct (Nat.le_gt_cases j (S L)) as [H | H]; [exact H |].
      pose proof (pow_mono F (S (S L)) j HF H).
      pose proof (pow_step F (S L)). nia. }
    assert (j = S L) by lia. subst j. split; [lia |].
    rewrite (pow_step F (S L)). nia.
  - split; [lia |].
    assert (Hne : Z.of_nat (S (S n)) <> F ^ Z.of_nat (S L)).
    { intros Heq.
      assert (alert_needed (Z.of_nat (S (S n))) F = true)
        by (apply alert_needed_spec; [exact HF | exists (S L); split; [lia | exact Heq]]).
      congruence. }
    lia.
Qed.

End AlertFacts.

Section CounterFacts.
Import Checker.
Variable cfg : settings.
Variable E : env.

Abbreviation alerts k o := (increments "embed_stats" (repetition_family k) "repetition" o).

Lemma checked_set_checked k m c : checked k (set_checked k m c) = m.
Proof. destruct k; reflexivity. Qed.

Lemma alerts_emit_checks k o :
  alerts k (emit (Increment "embed_stats" "embed_checker" (checks_label k)) o) = alerts k o.
Proof.
  unfold increments, emit. cbn [trace]. rewrite List.filter_app, length_app.
  destruct k; cbn; lia.
Qed.

Lemma alerts_emit_log k lvl format args o : alerts k (emit (Log lvl format args) o) = alerts k o.
Proof.
  unfold increments, emit. cbn [trace]. rewrite List.filter_app, length_app. cbn. lia.
Qed.

Lemma alerts_emit_repetition k o :
  alerts k (emit (Increment "embed_stats" (repetition_family k) "repetition") o) =
  S (alerts k o).
Proof.
  unfold increments, emit. cbn [trace]. rewrite List.filter_app, length_app.
  cbn [List.filter is_increment]. rewrite !String.eqb_refl. cbn. lia.
Qed.

(** A first sighting stores the count 1 and raises no alert. *)
Lemma seen_new k repo path key c o :
  checked k c !! key = None ->
  (seen cfg E k repo path key c o).1 =
    (Normal false, set_checked k (<[key := 1]> (checked k c)) c) /\
  alerts k (seen cfg E k repo path key c o).2 = alerts k o.
Proof.
  intros Hnew. unfold seen, bind, get, tell, modify, ret. cbn -[checked set_checked].
  rewrite Hnew. cbn -[checked set_checked]. split; [reflexivity | apply alerts_emit_checks].
Qed.

(** A later sighting stores the incremented count and raises an alert when
    [alert_needed] says so. *)
Lemma seen_known k repo path key c o count :
  checked k c !! key = Some count ->
  (seen cfg E k repo path key c o).1 =
    (Normal true, set_checked k (<[key := uint64_incr count]> (checked k c)) c) /\
  alerts k (seen cfg E k repo path key c o).2 =
    (alerts k o + if alert_needed (uint64_incr count) (factor_of cfg k) then 1 else 0)%nat.
Proof.
  intros Hknown. unfold seen, bind, get, tell, modify, ret, when, log.
  cbn -[checked set_checked alert_needed uint64_incr factor_of].
  rewrite Hknown. cbn -[checked set_checked alert_needed uint64_incr factor_of].
  destruct (alert_needed (uint64_incr count) (factor_of cfg k));
    cbn -[checked set_checked alert_needed uint64_incr factor_of increments]; unfold tell;
    cbn -[checked set_checked alert_needed uint64_incr factor_of increments emit].
  - split; [reflexivity |].
    rewrite alerts_emit_repetition, alerts_emit_log, alerts_emit_checks. lia.
  - split; [reflexivity |]. rewrite alerts_emit_checks. lia.
Qed.

Lemma sightings_S n k repo path key c o :
  sightings cfg E (S n) k repo path key c o =
  match sightings cfg E n k repo path key c o with
  | (Normal _, c1, o1) =>
    match seen cfg E k repo path key c1 o1 with
    | (Normal _, c2, o2) => (Normal tt, c2, o2)
    | (Thrown e, c2, o2) => (Thrown e, c2, o2)
    end
  | (Thrown e, c1, o1) => (Thrown e, c1, o1)
  end.
Proof.
  cbn [sightings]. unfold bind, ret.
  destruct (sightings cfg E n k repo path key c o) as [[[u | e] c1] o1]; [| reflexivity].
  destruct (seen cfg E k repo path key c1 o1) as [[[b | e] c2] o2]; reflexivity.
Qed.

Lemma sightings_count k repo path key c o (n : nat) :
  2 <= factor_of cfg k ->
  Z.of_nat (S n) < 2 ^ 64 ->
  checked k c !! key = None ->
  (sightings cfg E (S n) k repo path key c o).1.1 = Normal tt /\
  checked k (sightings cfg E (S n) k repo path key c o).1.2 !! key = Some (Z.of_nat (S n)) /\
  exists L : nat,
    alerts k (sightings cfg E (S n) k repo path key c o).2 = (alerts k o + L)%nat /\
    factor_of cfg k ^ Z.of_nat L <= Z.of_nat (S n) < factor_of cfg k ^ Z.of_nat (S L).
Proof.
  intros HF Hbound Hnew. induction n as [| n IH].
  - destruct (seen_new k repo path key c o Hnew) as [Hres Halerts].
    rewrite sightings_S.
    change (sightings cfg E 0 k repo path key c o) with (@Normal unit tt, c, o).
    cbv beta iota.
    destruct (seen cfg E k repo path key c o) as [[res c'] o'].
    cbn [fst snd] in *. inversion Hres; subst res c'. cbn [fst snd].
    split; [reflexivity |]. split.
    + rewrite checked_set_checked. apply lookup_insert_eq.
    + exists 0%nat. split; [lia |]. cbn. lia.
  - destruct IH as (Hres & Hcount & L & Halerts & Hlog); [lia |].
    rewrite (sightings_S (S n)).
    destruct (sightings cfg E (S n) k repo path key c o) as [[res c1] o1].
    cbn [fst snd] in *. subst res.
    destruct (seen_known k repo path key c1 o1 _ Hcount) as [Hseen Hstep].
    destruct (seen cfg E k repo path key c1 o1) as [[res c2] o2].
    cbn [fst snd] in *. inversion Hseen; subst res c2. cbn [fst snd].
    assert (Hincr : uint64_incr (Z.of_nat (S n)) = Z.of_nat (S (S n))).
    { unfold uint64_incr. rewrite Z.mod_small; lia. }
    rewrite Hincr in *.
    split; [reflexivity |]. split.
    + rewrite checked_set_checked. apply lookup_insert_eq.
    + pose proof (log_floor_step (factor_of cfg k) n L HF Hlog) as Hnext. cbv zeta in Hnext.
      exists (if alert_needed (Z.of_nat (S (S n))) (factor_of cfg k) then S L else L).
      split; [| exact Hnext].
      rewrite Hstep, Halerts.
      destruct (alert_needed (Z.of_nat (S (S n))) (factor_of cfg k)); lia.
Qed.

(** C6. For a factor of at least 2, [alert_needed] holds of exactly the
    counts [F], [F^2], [F^3], ...; and a key sighted [N] times in a
    category, starting unknown, ends with the count [N] and has raised
    exactly [L] repetition alerts, [L] being the floor of the logarithm of
    [N] to base [F]: [F^L <= N < F^(L+1)]. *)
Theorem alerts_at_powers_of_factor k repo path key c o (n : nat) :
  2 <= factor_of cfg k ->
  Z.of_nat (S n) < 2 ^ 64 ->
  checked k c !! key = None ->
  (forall count,
     alert_needed count (factor_of cfg k) = true <->
     exists j, (1 <= j)%nat /\ count = factor_of cfg k ^ Z.of_nat j) /\
  (sightings cfg E (S n) k repo path key c o).1.1 = Normal tt /\
  checked k (sightings cfg E (S n) k repo path key c o).1.2 !! key = Some (Z.of_nat (S n)) /\
  exists L : nat,
    increments "embed_stats" (repetition_family k) "repetition"
      (sightings cfg E (S n) k repo path key c o).2 =
    (increments "embed_stats" (repetition_family k) "repetition" o + L)%nat /\
    factor_of cfg k ^ Z.of_nat L <= Z.of_nat (S n) < factor_of cfg k ^ Z.of_nat (S L).
Proof.
  intros HF Hbound Hnew. split.
  - intros count. apply alert_needed_spec, HF.
  - apply sightings_count; assumption.
Qed.

End CounterFacts.

(** ** Redirect follower *)

Section HandlerFacts.
Import Checker Handler.
Variable cfg : settings.
Variable E : Handler.env.

Lemma seen_returns k repo path key c o :
  exists known, (seen cfg (libs E) k repo path key c o).1.1 = Normal known.
Proof.
  unfold seen, bind, get, tell, modify, ret, when, log.
  cbn -[checked set_checked alert_needed uint64_incr factor_of].
  destruct (checked k c !! key) as [count |];
    cbn -[checked set_checked alert_needed uint64_incr factor_of];
    [destruct (alert_needed (uint64_incr count) (factor_of cfg k)) |];
    eexists; reflexivity.
Qed.

Lemma should_process_uri_returns uri c o :
  exists go, (should_process_uri (libs E) uri c o).1.1 = Normal go.
Proof.
  unfold should_process_uri, bind, get, tell, ret, log.
  destruct (parse_uri (libs E) (target_of uri)) as [host | message];
    cbn -[target_of trimmed_host]; [| eexists; reflexivity].
  destruct (decide (trimmed_host c host ∈ _whitelist_uris c)); eexists; reflexivity.
Qed.

(** The callback answers; it does not throw. *)
Lemma on_url_redirect_returns code next h o :
  exists follow, (on_url_redirect cfg E code next h o).1.1 = Normal follow.
Proof.
  unfold on_url_redirect, checker, uri_seen, zoom, bind, get, modify, log, tell, ret, when.
  cbn -[seen should_process_uri].
  match goal with |- context [seen ?a ?b ?k ?r ?p ?u ?c ?o1] =>
    destruct (seen_returns k r p u c o1) as [known Hknown];
    destruct (seen a b k r p u c o1) as [[res c1] o2]
  end.
  cbn [fst snd] in Hknown. subst res. cbn -[should_process_uri].
  destruct known; cbn -[should_process_uri]; [eexists; reflexivity |].
  match goal with |- context [should_process_uri ?b ?u ?c ?o1] =>
    destruct (should_process_uri_returns u c o1) as [go Hgo];
    destruct (should_process_uri b u c o1) as [[res c2] o3]
  end.
  cbn [fst snd] in Hgo. subst res. cbn.
  destruct go; cbn; [eexists; reflexivity |].
  destruct (all_matches_for_candidates _ _); eexists; reflexivity.
Qed.

(** The callback's answer, for every URL: "continue" exactly when the URL
    is new and [should_process_uri] rejects it. *)
Lemma on_url_redirect_answer code next h o :
  (on_url_redirect cfg E code next h o).1.1 =
  match (uri_seen cfg (libs E) (_repo h) (_path h) next (_checker h)
           (emit (Log Info "Redirect code {} for {}" [a_num code; a_str next]) o)) with
  | (Normal true, _, _) => Normal false
  | (Normal false, c1, o1) =>
    match (should_process_uri (libs E) next c1 o1).1.1 with
    | Normal go => Normal (negb go)
    | Thrown e => Thrown e
    end
  | (Thrown e, _, _) => Thrown e
  end.
Proof.
  unfold on_url_redirect, checker, uri_seen, zoom, bind, get, modify, log, tell, ret, when.
  cbn -[seen should_process_uri].
  match goal with |- context [seen ?a ?b ?k ?r ?p ?u ?c ?o1] =>
    destruct (seen a b k r p u c o1) as [[[known | e] c1] o2]
  end; cbn -[should_process_uri]; [| reflexivity].
  destruct known; cbn -[should_process_uri]; [reflexivity |].
  destruct (should_process_uri (libs E) next c1 o2) as [[[go | e] c2] o3]; cbn; [| reflexivity].
  destruct go; cbn; [reflexivity |].
  destruct (all_matches_for_candidates _ _); reflexivity.
Qed.

Lemma deliver_returns redirects : forall h o,
  (deliver cfg E redirects h o).1.1 = Normal tt.
Proof.
  induction redirects as [| [code next] rest IH]; intros h o; cbn [deliver]; [reflexivity |].
  unfold bind.
  destruct (on_url_redirect_returns code next h o) as [follow Hfollow].
  destruct (on_url_redirect cfg E code next h o) as [[res h1] o1].
  cbn [fst snd] in Hfollow. subst res. apply IH.
Qed.

(** Every pass through the loop body sets [done] and ends in [break]. *)
Lemma attempt_breaks uri retries f h o :
  exists f' retries',
    (attempt cfg E uri retries f h o).1.1 = Normal (f', retries', true) /\ done f' = true.
Proof.
  unfold attempt, try_catch, bind, get, ask, throw, ret, log, tell.
  cbn -[deliver].
  destruct (rest_client E (tick o) _) as [e | redirects finish]; cbn -[deliver].
  - destruct e; cbn; eexists; eexists; split; reflexivity.
  - match goal with |- context [deliver cfg E redirects ?h1 ?o1] =>
      pose proof (deliver_returns redirects h1 o1) as Hdeliver;
      destruct (deliver cfg E redirects h1 o1) as [[res h2] o2]
    end.
    cbn [fst snd] in Hdeliver. subst res. cbn.
    destruct finish as [u | e]; cbn; [eexists; eexists; split; reflexivity |].
    destruct e as [code w | w | w]; cbn; [destruct (is_asio_eof code); cbn |..];
      eexists; eexists; split; reflexivity.
Qed.

(** The two loops run their body once, so any fuel from 1 up gives the run
    that fuel 1 gives. *)
Lemma check_loop_once fuel uri f h o :
  done f = false ->
  check_loop cfg E (S fuel) uri f h o = check_loop cfg E 1 uri f h o.
Proof.
  intros Hnot. cbn [check_loop retry_loop Nat.ltb Nat.leb]. rewrite Hnot. cbn [negb].
  unfold bind.
  destruct (attempt_breaks uri 0 f h o) as (f' & retries' & Hpass & Hdone).
  destruct (attempt cfg E uri 0 f h o) as [[res h1] o1].
  cbn [fst snd] in Hpass. subst res. cbn [fst snd ret].
  unfold ret. destruct fuel as [| fuel]; cbn [check_loop]; rewrite Hdone; reflexivity.
Qed.

Lemma external_fuel fuel uri h o :
  external cfg E (S fuel) uri h o = external cfg E 1 uri h o.
Proof.
  unfold external, bind. cbn -[check_loop checker].
  destruct (checker _ h o) as [[[known | e] h1] o1]; [| reflexivity].
  destruct known; cbn -[check_loop checker]; [reflexivity |].
  destruct (checker _ h1 o1) as [[[go | e] h2] o2]; [| reflexivity].
  destruct go; cbn -[check_loop checker]; [| reflexivity].
  unfold modify, log, tell. cbn -[check_loop].
  rewrite check_loop_once by reflexivity. reflexivity.
Qed.

Lemma tally_bump o : tally (bump o) = tally o.
Proof. reflexivity. Qed.

Lemma increments_emit f l v e o :
  increments f l v (emit e o) =
  (increments f l v o + if is_increment f l v e then 1 else 0)%nat.
Proof.
  unfold increments, emit. cbn [trace]. rewrite List.filter_app, length_app. cbn.
  destruct (is_increment f l v e); reflexivity.
Qed.

Lemma hops_observed_emit e o :
  hops_observed (emit e o) =
  hops_observed o ++ hops_observed {| trace := [e]; tick := 0 |}.
Proof. unfold hops_observed, emit. cbn [trace]. apply omap_app. Qed.

Lemma tally_emit e o : quiet e = true -> tally (emit e o) = tally o.
Proof.
  intros Hquiet. unfold tally, outcomes. rewrite !increments_emit, hops_observed_emit.
  destruct e as [| f l v | | | | | | |]; cbn in Hquiet |- *;
    try discriminate; rewrite ?app_nil_r, ?Nat.add_0_r; try reflexivity.
  destruct (String.eqb f "embed_stats"); cbn in Hquiet |- *;
    rewrite ?Nat.add_0_r; [| reflexivity].
  destruct (String.eqb l "link"); cbn in Hquiet |- *; rewrite ?Nat.add_0_r; [| reflexivity].
  destruct (String.eqb v "redirect_ok"); cbn in Hquiet; [discriminate |].
  destruct (String.eqb v "redirect_limit_exceeded"); cbn in Hquiet; [discriminate |].
  destruct (String.eqb v "redirect_error"); cbn in Hquiet; [discriminate |].
  cbn. rewrite ?Nat.add_0_r. reflexivity.
Qed.

Ltac hush k :=
  repeat (rewrite tally_bump || rewrite tally_emit by (try destruct k; reflexivity)).

Lemma seen_tally k repo path key c o :
  tally (seen cfg (libs E) k repo path key c o).2 = tally o.
Proof.
  unfold seen, bind, get, tell, modify, ret, when, log.
  cbn -[checked set_checked alert_needed uint64_incr factor_of tally emit].
  destruct (checked k c !! key) as [count |];
    cbn -[checked set_checked alert_needed uint64_incr factor_of tally emit];
    [destruct (alert_needed (uint64_incr count) (factor_of cfg k)) |];
    cbn -[checked set_checked alert_needed uint64_incr factor_of tally emit];
    hush k; reflexivity.
Qed.

Lemma should_process_uri_tally uri c o :
  tally (should_process_uri (libs E) uri c o).2 = tally o.
Proof.
  unfold should_process_uri, bind, get, tell, ret, log.
  destruct (parse_uri (libs E) (target_of uri)) as [host | message];
    cbn -[target_of trimmed_host tally emit];
    [destruct (decide (trimmed_host c host ∈ _whitelist_uris c)) |];
    cbn -[target_of trimmed_host tally emit]; hush link; reflexivity.
Qed.

Lemma on_url_redirect_tally code next h o :
  tally (on_url_redirect cfg E code next h o).2 = tally o.
Proof.
  unfold on_url_redirect, checker, uri_seen, zoom, bind, get, modify, log, tell, ret, when.
  cbn -[seen should_process_uri tally emit].
  match goal with |- context [seen ?a ?b ?k ?r ?p ?u ?c ?o1] =>
    pose proof (seen_tally k r p u c o1) as Hseen;
    destruct (seen_returns k r p u c o1) as [known Hknown];
    destruct (seen a b k r p u c o1) as [[res c1] o2]
  end.
  cbn [fst snd] in Hknown, Hseen. subst res. rewrite tally_emit in Hseen by reflexivity.
  cbn -[should_process_uri tally emit].
  destruct known; cbn -[should_process_uri tally emit]; [exact Hseen |].
  match goal with |- context [should_process_uri ?b ?u ?c ?o1] =>
    pose proof (should_process_uri_tally u c o1) as Hgo';
    destruct (should_process_uri_returns u c o1) as [go Hgo];
    destruct (should_process_uri b u c o1) as [[res c2] o3]
  end.
  cbn [fst snd] in Hgo, Hgo'. subst res. cbn -[tally emit].
  destruct go; cbn -[tally emit]; [congruence |].
  destruct (all_matches_for_candidates _ _); cbn -[tally emit]; hush link; congruence.
Qed.

Lemma deliver_tally redirects : forall h o,
  tally (deliver cfg E redirects h o).2 = tally o.
Proof.
  induction redirects as [| [code next] rest IH]; intros h o; cbn [deliver]; [reflexivity |].
  unfold bind.
  pose proof (on_url_redirect_tally code next h o) as Hone.
  destruct (on_url_redirect_returns code next h o) as [follow Hfollow].
  destruct (on_url_redirect cfg E code next h o) as [[res h1] o1].
  cbn [fst snd] in Hfollow, Hone. subst res. rewrite IH. exact Hone.
Qed.

Lemma attempt_tally uri retries f h o :
  tally (attempt cfg E uri retries f h o).2 = tally o.
Proof.
  unfold attempt, try_catch, bind, get, ask, throw, ret, log, tell.
  cbn -[deliver tally emit bump].
  destruct (rest_client E (tick o) _) as [e | redirects finish]; cbn -[deliver tally emit bump].
  - destruct e; cbn -[tally emit bump]; hush link; reflexivity.
  - match goal with |- context [deliver cfg E redirects ?h1 ?o1] =>
      pose proof (deliver_tally redirects h1 o1) as Htally;
      pose proof (deliver_returns redirects h1 o1) as Hdeliver;
      destruct (deliver cfg E redirects h1 o1) as [[res h2] o2]
    end.
    cbn [fst snd] in Hdeliver, Htally. subst res. revert Htally. hush link. intros Htally.
    cbn -[tally emit bump].
    destruct finish as [u | e]; cbn -[tally emit bump]; [exact Htally |].
    destruct e as [code w | w | w]; cbn -[tally emit bump];
      [destruct (is_asio_eof code); cbn -[tally emit bump] |..];
      hush link; exact Htally.
Qed.

(** For an embed that passes the admission test, whatever the HTTP layer
    does: one of the three termination counters goes up by one and the
    length of the chain is observed once. *)
Lemma external_records_one_outcome fuel uri h o :
  (uri_seen cfg (libs E) (_repo h) (_path h) uri (_checker h) o).1.1 = Normal false ->
  (should_process_uri (libs E) uri
     (uri_seen cfg (libs E) (_repo h) (_path h) uri (_checker h) o).1.2
     (uri_seen cfg (libs E) (_repo h) (_path h) uri (_checker h) o).2).1.1 = Normal true ->
  (external cfg E (S fuel) uri h o).1.1 = Normal tt /\
  outcomes (external cfg E (S fuel) uri h o).2 = S (outcomes o) /\
  hops_observed (external cfg E (S fuel) uri h o).2 =
    hops_observed o ++
    [Z.of_nat (List.length (_uri_chain (external cfg E (S fuel) uri h o).1.2))].
Proof.
  intros Hnew Hgo. rewrite external_fuel.
  unfold external, checker, uri_seen, zoom, bind, get in *.
  cbn -[check_loop seen should_process_uri tally emit outcomes hops_observed] in *.
  pose proof (seen_tally link (_repo h) (_path h) uri (_checker h) o) as Hseen.
  destruct (seen cfg (libs E) link (_repo h) (_path h) uri (_checker h) o) as [[res c1] o1].
  cbn [fst snd] in Hnew, Hgo, Hseen. subst res.
  cbn -[check_loop seen should_process_uri tally emit outcomes hops_observed].
  pose proof (should_process_uri_tally uri c1 o1) as Hadmit.
  destruct (should_process_uri (libs E) uri c1 o1) as [[res c2] o2].
  cbn [fst snd] in Hgo, Hadmit. subst res.
  cbn -[check_loop tally emit outcomes hops_observed].
  unfold modify, log, tell, ret.
  cbn -[attempt tally emit outcomes hops_observed].
  unfold bind.
  match goal with |- context [attempt cfg E uri 0 ?f0 ?h1 ?o3] =>
    pose proof (attempt_tally uri 0 f0 h1 o3) as Hpass;
    destruct (attempt_breaks uri 0 f0 h1 o3) as (f' & retries' & Hres & Hdone);
    destruct (attempt cfg E uri 0 f0 h1 o3) as [[res h3] o4]
  end.
  cbn [fst snd] in Hres, Hpass. subst res. rewrite tally_emit in Hpass by reflexivity.
  cbn -[tally emit outcomes hops_observed]. rewrite Hdone.
  cbn -[tally emit outcomes hops_observed].
  assert (Hbefore : tally o4 = tally o) by congruence.
  unfold tally in Hbefore. injection Hbefore as Hout Hhops.
  split; [destruct (completed f'), (overflow f'); reflexivity |].
  split.
  - unfold outcomes in *.
    destruct (completed f'), (overflow f'); cbn -[increments emit];
      rewrite !increments_emit; cbn -[increments emit]; lia.
  - destruct (completed f'), (overflow f'); cbn -[hops_observed emit];
      rewrite !hops_observed_emit, Hhops; cbn; rewrite ?app_nil_r; reflexivity.
Qed.

End HandlerFacts.

Section CheckerRuns.
Import Checker Handler Scenario.

(** Factor 4: of the counts 1, 2, 3, 4, 15, 16, 17 only 4 and 16 alert. *)
Example alert_needed_factor_4 :
  List.map (fun count => alert_needed count 4) [1; 2; 3; 4; 15; 16; 17] =
  [false; false; false; true; false; true; false].
Proof. reflexivity. Qed.

(** Seventeen sightings of one image with factor 4. *)
Lemma seventeen_sightings_run :
  (sightings factors (libraries []) 17 image spammer record_path "bafkreiabc" checker0 io0).1.1 =
    Normal tt /\
  exists L : nat,
    increments "embed_stats" "images" "repetition"
      (sightings factors (libraries []) 17 image spammer record_path "bafkreiabc" checker0 io0).2 =
    (increments "embed_stats" "images" "repetition" io0 + L)%nat /\
    4 ^ Z.of_nat L <= 17 < 4 ^ Z.of_nat (S L).
Proof.
  destruct (alerts_at_powers_of_factor factors (libraries []) image spammer record_path
              "bafkreiabc" checker0 io0 16) as (_ & Hres & _ & Hlog).
  - vm_compute. discriminate.
  - vm_compute. reflexivity.
  - reflexivity.
  - split; [exact Hres | exact Hlog].
Defined.

(** A truncated link to the whitelisted host is skipped; a link elsewhere is
    admitted; a string that is no URL is dropped as malformed. *)
Example should_process_uri_runs :
  (should_process_uri (libraries []) (whitelisted +:+ UrlSuffix) checker0 io0).1.1 =
    Normal false /\
  trace (should_process_uri (libraries []) (whitelisted +:+ UrlSuffix) checker0 io0).2 =
    [Increment "embed_stats" "links" "whitelist_skipped"] /\
  (should_process_uri (libraries []) landing checker0 io0).1.1 = Normal true /\
  (should_process_uri (libraries []) "not a url" checker0 io0).1.1 = Normal false.
Proof. vm_compute. repeat split. Qed.

(** C1, at the failing inputs.  The next URL is new, well formed and not
    whitelisted, and the matcher has a rule for it: the callback appends it
    to the chain and answers "stop", and nothing reaches the action router.
    The next URL is new and whitelisted: the callback answers "continue" and
    hands the matches to the action router. *)
Theorem on_url_redirect_test_is_inverted :
  (uri_seen factors (libraries [scam_rule]) spammer record_path landing checker0 io0).1.1 =
    Normal false /\
  (should_process_uri (libraries [scam_rule]) landing checker0 io0).1.1 = Normal true /\
  (on_url_redirect factors (http_layer [scam_rule] (started [] (Returns tt))) 302 landing
     following io0).1.1 = Normal false /\
  _uri_chain
    (on_url_redirect factors (http_layer [scam_rule] (started [] (Returns tt))) 302 landing
       following io0).1.2 = [short_link; landing] /\
  actions
    (on_url_redirect factors (http_layer [scam_rule] (started [] (Returns tt))) 302 landing
       following io0).2 = [] /\
  (should_process_uri (libraries [scam_rule]) whitelisted checker0 io0).1.1 = Normal false /\
  (on_url_redirect factors (http_layer [scam_rule] (started [] (Returns tt))) 302 whitelisted
     following io0).1.1 = Normal true /\
  actions
    (on_url_redirect factors (http_layer [scam_rule] (started [] (Returns tt))) 302 whitelisted
       following io0).2 = [(spammer, [(record_path, [scam_rule])])].
Proof. vm_compute. repeat split. Qed.

(** C7, at the failing input.  Six redirects against a limit of five: the
    limit's exception comes out of [check_done.get()], the inner handler for
    [std::exception] takes it, and the embed is counted as an error, not as
    an overflow; no report is enqueued.  The hops are observed. *)
Theorem redirect_overflow_is_counted_as_error :
  follow 5 six_hops =
    started (List.map (fun u => (302, u)) six_hops)
      (Raises (ConstraintException "Too many redirects")) /\
  (external factors (http_layer [] (follow 5 six_hops)) 1 short_link
     (handler_for checker0 spammer record_path) io0).1.1 = Normal tt /\
  increments "embed_stats" "link" "redirect_limit_exceeded"
    (external factors (http_layer [] (follow 5 six_hops)) 1 short_link
       (handler_for checker0 spammer record_path) io0).2 = 0%nat /\
  increments "embed_stats" "link" "redirect_error"
    (external factors (http_layer [] (follow 5 six_hops)) 1 short_link
       (handler_for checker0 spammer record_path) io0).2 = 1%nat /\
  increments "embed_stats" "link" "redirect_ok"
    (external factors (http_layer [] (follow 5 six_hops)) 1 short_link
       (handler_for checker0 spammer record_path) io0).2 = 0%nat /\
  reports
    (external factors (http_layer [] (follow 5 six_hops)) 1 short_link
       (handler_for checker0 spammer record_path) io0).2 = [] /\
  hops_observed
    (external factors (http_layer [] (follow 5 six_hops)) 1 short_link
       (handler_for checker0 spammer record_path) io0).2 = [7].
Proof. vm_compute. repeat split. Qed.

(** The handler for the overflow is reached only by a [ConstraintException]
    that [ProcessWithPromise] itself throws. *)
Example overflow_handler_run :
  increments "embed_stats" "link" "redirect_limit_exceeded"
    (external factors (http_layer [] (start_throws (ConstraintException "Too many redirects")))
       1 short_link (handler_for checker0 spammer record_path) io0).2 = 1%nat /\
  reports
    (external factors (http_layer [] (start_throws (ConstraintException "Too many redirects")))
       1 short_link (handler_for checker0 spammer record_path) io0).2 =
    [(spammer, record_path, [short_link])].
Proof. vm_compute. repeat split. Qed.

End CheckerRuns.

(** * Further properties of the code *)

(** ** Session manager: connecting and refreshing *)

Section SessionMore.
Import Session.
Variable cfg : config.
Variable E : env.

Ltac session_run :=
  unfold check_refresh, connect, internal_connect, do_post, decode_expires_at, now; run.

Ltac count_posts :=
  unfold posts_to; cbn [trace emit bump snd]; rewrite <- ?app_assoc, ?omap_app, ?length_app;
  cbn; lia.

(** X1. A refresh that succeeds rotates both tokens and both expiry instants,
    with one POST to refreshSession and none to createSession. *)
Theorem check_refresh_rotates_tokens s o t access refresh :
  refresh_due cfg s (system_clock_now E (tick o)) = true ->
  client_do_post E (S (tick o)) (refresh_call s) = Returns t ->
  jwt_expires_at E (accessJwt t) = Returns access ->
  jwt_expires_at E (refreshJwt t) = Returns refresh ->
  (check_refresh cfg E s o).1 =
    (Normal tt,
     {| _credentials := _credentials s; _tokens := t;
        _access_expiry := access; _refresh_expiry := refresh |}) /\
  posts_to refreshSession (check_refresh cfg E s o).2 =
    posts_to refreshSession o ++ [refresh_call s] /\
  posts_to createSession (check_refresh cfg E s o).2 = posts_to createSession o.
Proof.
  intros Hdue Hpost Haccess Hrefresh. unfold refresh_call in *. session_run.
  destruct (is_empty (refreshJwt (_tokens s))); step;
    rewrite Hdue; step; rewrite Hpost; step; rewrite Haccess, Hrefresh;
    (split; [reflexivity |]);
    (split; unfold posts_to; cbn [trace emit bump snd];
     rewrite <- ?app_assoc, ?omap_app; cbn; rewrite ?app_nil_r; reflexivity).
Qed.

(** X2. When the refresh is rejected as an invalid token and the reconnect fails
    too, it is the error of createSession that reaches the caller; the
    session is left as it was. *)
Theorem check_refresh_reconnect_failure s o e e' :
  refresh_due cfg s (system_clock_now E (tick o)) = true ->
  client_do_post E (S (tick o)) (refresh_call s) = Raises e ->
  contains (what e) InvalidToken = true ->
  client_do_post E (S (S (tick o))) (connect_call s) = Raises e' ->
  (check_refresh cfg E s o).1 = (Thrown e', s) /\
  posts_to createSession (check_refresh cfg E s o).2 =
    posts_to createSession o ++ [connect_call s].
Proof.
  intros Hdue Hpost Hmark Hconnect. unfold refresh_call, connect_call in *. session_run.
  destruct (is_empty (refreshJwt (_tokens s))); step;
    rewrite Hdue; step; rewrite Hpost; step; rewrite Hmark; step; rewrite Hconnect;
    (split; [reflexivity |]);
    unfold posts_to; cbn [trace emit bump snd];
    rewrite <- ?app_assoc, ?omap_app; cbn; rewrite ?app_nil_r; reflexivity.
Qed.

(** X3. Whatever the server and the decoder do, one call of [check_refresh]
    posts at most once to refreshSession and at most once to createSession,
    and to createSession only after it posted to refreshSession. *)
Theorem check_refresh_posts_at_most_twice s o :
  (List.length (posts_to refreshSession (check_refresh cfg E s o).2) <=
   List.length (posts_to refreshSession o) + 1)%nat /\
  (List.length (posts_to createSession (check_refresh cfg E s o).2) +
   List.length (posts_to refreshSession o) <=
   List.length (posts_to createSession o) +
   List.length (posts_to refreshSession (check_refresh cfg E s o).2))%nat.
Proof.
  destruct (refresh_due cfg s (system_clock_now E (tick o))) eqn:Hdue.
  - session_run.
    destruct (is_empty (refreshJwt (_tokens s))); step; rewrite Hdue; step;
      outcomes; split; count_posts.
  - rewrite !(check_refresh_idle_posts cfg E s o _ Hdue). lia.
Qed.

(** X4. When the refreshed access token decodes and the refreshed refresh
    token does not, the decoder's error reaches the caller, without a
    reconnect unless its text has the invalid-token mark, and the session
    is left half updated: the new tokens and the new access expiry with the
    refresh expiry from before. *)
Theorem check_refresh_decode_failure_is_partial s o t access e :
  refresh_due cfg s (system_clock_now E (tick o)) = true ->
  client_do_post E (S (tick o)) (refresh_call s) = Returns t ->
  jwt_expires_at E (accessJwt t) = Returns access ->
  jwt_expires_at E (refreshJwt t) = Raises e ->
  contains (what e) InvalidToken = false ->
  (check_refresh cfg E s o).1 =
    (Thrown e,
     {| _credentials := _credentials s; _tokens := t;
        _access_expiry := access; _refresh_expiry := _refresh_expiry s |}) /\
  posts_to createSession (check_refresh cfg E s o).2 = posts_to createSession o.
Proof.
  intros Hdue Hpost Haccess Hrefresh Hmark. unfold refresh_call in *. session_run.
  destruct (is_empty (refreshJwt (_tokens s))); step;
    rewrite Hdue; step; rewrite Hpost; step; rewrite Haccess, Hrefresh; step; rewrite Hmark;
    (split; [reflexivity |]);
    unfold posts_to; cbn [trace emit bump snd];
    rewrite <- ?app_assoc, ?omap_app; cbn; rewrite ?app_nil_r; reflexivity.
Qed.

(** X5. [connect] stores the credentials, posts them to createSession once, and
    on success holds the tokens it got and their decoded expiries. *)
Theorem connect_establishes_session credentials s o t access refresh :
  client_do_post E (tick o) (connect_call (set_credentials credentials s)) = Returns t ->
  jwt_expires_at E (accessJwt t) = Returns access ->
  jwt_expires_at E (refreshJwt t) = Returns refresh ->
  (connect E credentials s o).1 =
    (Normal tt,
     {| _credentials := credentials; _tokens := t;
        _access_expiry := access; _refresh_expiry := refresh |}) /\
  posts_to createSession (connect E credentials s o).2 =
    posts_to createSession o ++
    [ {| post_path := createSession; post_data := body_login credentials;
         needs_refresh_check := false; no_post_log := true; post_tokens := _tokens s |} ].
Proof.
  intros Hpost Haccess Hrefresh. unfold connect_call in *. cbn in Hpost. session_run.
  rewrite Hpost. step. rewrite Haccess, Hrefresh.
  split; [reflexivity |].
  unfold posts_to; cbn [trace emit bump snd];
    rewrite <- ?app_assoc, ?omap_app; cbn; rewrite ?app_nil_r; reflexivity.
Qed.

(** X6. A [connect] that the server rejects throws the server's error; the new
    credentials stay stored, the tokens and expiries are those from before. *)
Theorem connect_failure_keeps_tokens credentials s o e :
  client_do_post E (tick o) (connect_call (set_credentials credentials s)) = Raises e ->
  (connect E credentials s o).1 = (Thrown e, set_credentials credentials s).
Proof.
  intros Hpost. unfold connect_call in *. cbn in Hpost. session_run.
  rewrite Hpost. reflexivity.
Qed.

End SessionMore.

(** ** Client facade: the retry loops *)

Section LoopFacts.
Import Client.
Variable cfg : Session.config.
Context {R : Type}.
Variable E : env R.
Variable response0 : R.
Variable printed : R -> list arg.

Ltac client_step := cbn -[check_refresh Session.refresh_due].

Ltac one_pass Hlt :=
  cbn [do_post_from create_record_from put_record_from get_record_from
       emit_event_from do_get_from send_report_from];
  rewrite (proj2 (Nat.ltb_lt _ _) Hlt);
  unfold execute; unfold bind, get, when, log, tell, ret, modify, throw, try_catch, ask.

Ltac pass_idle Hidle c o :=
  rewrite (client_check_refresh_idle cfg E c o Hidle);
  destruct (is_empty (refreshJwt (Session._tokens (_session c)))).

Ltac count_requests :=
  unfold requests; cbn [trace emit bump snd]; rewrite ?omap_app, ?length_app; cbn; lia.

Ltac same_posts :=
  intros; unfold Session.posts_to; cbn [trace emit bump snd];
  rewrite <- ?app_assoc, ?omap_app; cbn; rewrite ?app_nil_r; reflexivity.

Ltac same_increments :=
  intros; unfold increments; cbn [trace emit bump snd];
  rewrite <- ?app_assoc, ?List.filter_app, ?length_app; cbn; lia.

Ltac retried_now :=
  unfold retried; cbn [tick emit bump];
  (split; [lia | split; [count_requests | split; [same_posts | same_increments]]]).

Lemma retried_refl o : retried 0 0 o o.
Proof. unfold retried. repeat split; lia. Qed.

Lemma retried_trans k n k' n' o o1 o2 :
  retried k n o o1 -> retried k' n' o1 o2 -> retried (k + k') (n + n') o o2.
Proof.
  intros (Ht & Hr & Hp & Hi) (Ht' & Hr' & Hp' & Hi'). unfold retried.
  split; [lia | split; [lia | split]].
  - intros p. rewrite Hp'. apply Hp.
  - intros f l v. rewrite Hi'. apply Hi.
Qed.

(** A loop whose failing pass hands over to the next pass does so [n] times
    in a row. *)
Section Skipping.
Context {A : Type}.
Variable loop : nat -> nat -> M client A.
Variable c : client.
Variables stride limit : nat.
Variable failing : nat -> Prop.
Hypothesis pass : forall fuel retries o,
  (retries < limit)%nat -> failing (tick o) ->
  exists o1, loop (S fuel) retries c o = loop fuel (S retries) c o1 /\ retried stride 1 o o1.

Lemma skips n : forall fuel retries o,
  (retries + n <= limit)%nat ->
  (forall i, (i < n)%nat -> failing (tick o + stride * i)%nat) ->
  exists o', loop (n + fuel)%nat retries c o = loop fuel (retries + n)%nat c o' /\
             retried (stride * n) n o o'.
Proof.
  induction n as [| n IH]; intros fuel retries o Hlimit Hfail.
  - exists o. rewrite Nat.add_0_r, Nat.mul_0_r. split; [reflexivity | apply retried_refl].
  - destruct (pass (n + fuel) retries o) as (o1 & Hpass & Hstep); [lia | |].
    { specialize (Hfail 0%nat). rewrite Nat.mul_0_r, Nat.add_0_r in Hfail. apply Hfail. lia. }
    destruct (IH fuel (S retries) o1) as (o' & Hrest & Hsteps); [lia | |].
    { intros i Hi. destruct Hstep as (Htick & _). rewrite Htick.
      replace (tick o + stride + stride * i)%nat with (tick o + stride * S i)%nat by lia.
      apply Hfail. lia. }
    exists o'. split.
    + cbn [Nat.add]. rewrite Hpass, Hrest. f_equal. lia.
    + replace (stride * S n)%nat with (stride + stride * n)%nat by lia.
      change (S n) with (1 + n)%nat. eapply retried_trans; eassumption.
Qed.

End Skipping.

Section Passes.
Variables (c : client) (code : error_code) (w : string).
Hypothesis Heof : is_asio_eof code = true.
Let e := system_error code w.

(** What makes a pass fail with the read-EOF: for the operations that
    refresh first, no refresh due at the clock reading and the EOF on the
    request that follows; for the reads, the EOF on the request. *)
Let write_fails (k : nat) : Prop := idle_at cfg E c k /\ fails_at E (S k) e.
Let read_fails (k : nat) : Prop := fails_at E k e.

Ltac eof_pass Hlt Hidle Hfail o :=
  one_pass Hlt; pass_idle Hidle c o; client_step; rewrite Hfail; client_step;
  rewrite Heof; client_step; eexists; (split; [reflexivity | retried_now]).

Lemma create_record_eof_pass record_str fuel retries o :
  (retries < 5)%nat -> write_fails (tick o) ->
  exists o1,
    create_record_from cfg E response0 printed (S fuel) retries record_str c o =
    create_record_from cfg E response0 printed fuel (S retries) record_str c o1 /\
    retried 2 1 o o1.
Proof. intros Hlt [Hidle Hfail]. eof_pass Hlt Hidle Hfail o. Qed.

Lemma put_record_eof_pass record_str fuel retries o :
  (retries < 5)%nat -> write_fails (tick o) ->
  exists o1,
    put_record_from cfg E response0 (S fuel) retries record_str c o =
    put_record_from cfg E response0 fuel (S retries) record_str c o1 /\
    retried 2 1 o o1.
Proof. intros Hlt [Hidle Hfail]. eof_pass Hlt Hidle Hfail o. Qed.

Lemma emit_event_eof_pass body fuel retries o :
  (retries < 5)%nat -> write_fails (tick o) ->
  exists o1,
    emit_event_from cfg E response0 printed (S fuel) retries body c o =
    emit_event_from cfg E response0 printed fuel (S retries) body c o1 /\
    retried 2 1 o o1.
Proof. intros Hlt [Hidle Hfail]. eof_pass Hlt Hidle Hfail o. Qed.

Lemma send_report_eof_pass did reason_str reason_name body fuel retries o :
  (retries < 5)%nat -> write_fails (tick o) ->
  exists o1,
    send_report_from cfg E printed (S fuel) retries did reason_str reason_name body c o =
    send_report_from cfg E printed fuel (S retries) did reason_str reason_name body c o1 /\
    retried 2 1 o o1.
Proof. intros Hlt [Hidle Hfail]. eof_pass Hlt Hidle Hfail o. Qed.

Lemma do_post_eof_pass use_refresh no_log relative_path body_str fuel retries o :
  (retries < 4)%nat -> write_fails (tick o) ->
  exists o1,
    do_post_from cfg E response0 printed (S fuel) retries use_refresh no_log relative_path
      body_str c o =
    do_post_from cfg E response0 printed fuel (S retries) use_refresh no_log relative_path
      body_str c o1 /\
    retried 2 1 o o1.
Proof.
  intros Hlt4 [Hidle Hfail].
  assert (Hlt : (retries < 5)%nat) by lia.
  assert (Hnot : (5 <=? S retries)%nat = false) by (apply Nat.leb_gt; lia).
  cbn [Nat.leb] in Hnot.
  one_pass Hlt; pass_idle Hidle c o; destruct no_log; client_step; rewrite Hfail;
    client_step; rewrite Heof; client_step; rewrite Hnot;
    eexists; (split; [reflexivity | retried_now]).
Qed.

Lemma get_record_eof_pass did collection rkey fuel retries o :
  (retries < 4)%nat -> read_fails (tick o) ->
  exists o1,
    get_record_from E response0 (S fuel) retries did collection rkey c o =
    get_record_from E response0 fuel (S retries) did collection rkey c o1 /\
    retried 1 1 o o1.
Proof.
  intros Hlt4 Hfail.
  assert (Hlt : (retries < 5)%nat) by lia.
  assert (Hnot : (5 <=? S retries)%nat = false) by (apply Nat.leb_gt; lia).
  cbn [Nat.leb] in Hnot.
  one_pass Hlt; client_step; rewrite Hfail; client_step; rewrite Heof; client_step;
    rewrite Hnot; eexists; (split; [reflexivity | retried_now]).
Qed.

Lemma do_get_eof_pass relative_path callback fuel retries o :
  (retries < 5)%nat -> read_fails (tick o) ->
  exists o1,
    do_get_from E response0 (S fuel) retries relative_path callback c o =
    do_get_from E response0 fuel (S retries) relative_path callback c o1 /\
    retried 1 1 o o1.
Proof.
  intros Hlt Hfail.
  one_pass Hlt; client_step; rewrite Hfail; client_step; rewrite Heof; client_step;
    eexists; (split; [reflexivity | retried_now]).
Qed.

End Passes.

(** A pass whose request is answered ends the loop with the answer. *)
Section Answered.
Variables (c : client) (r : R) (fuel retries : nat) (o : io).
Hypothesis Hlt : (retries < 5)%nat.

Ltac ok_pass Hidle Hok :=
  one_pass Hlt; pass_idle Hidle c o; client_step; rewrite Hok; client_step;
  (split; [reflexivity | retried_now]).

Section Writes.
Hypothesis Hidle : idle_at cfg E c (tick o).
Hypothesis Hok : forall request, process_with_promise E (S (tick o)) request = Returns r.

Lemma create_record_ok_pass record_str :
  (create_record_from cfg E response0 printed (S fuel) retries record_str c o).1 =
    (Normal r, c) /\
  retried 2 1 o (create_record_from cfg E response0 printed (S fuel) retries record_str c o).2.
Proof. ok_pass Hidle Hok. Qed.

Lemma put_record_ok_pass record_str :
  (put_record_from cfg E response0 (S fuel) retries record_str c o).1 = (Normal r, c) /\
  retried 2 1 o (put_record_from cfg E response0 (S fuel) retries record_str c o).2.
Proof. ok_pass Hidle Hok. Qed.

Lemma emit_event_ok_pass body :
  (emit_event_from cfg E response0 printed (S fuel) retries body c o).1 = (Normal r, c) /\
  retried 2 1 o (emit_event_from cfg E response0 printed (S fuel) retries body c o).2.
Proof. ok_pass Hidle Hok. Qed.

Lemma do_post_ok_pass use_refresh no_log relative_path body_str :
  (do_post_from cfg E response0 printed (S fuel) retries use_refresh no_log relative_path
     body_str c o).1 = (Normal r, c) /\
  retried 2 1 o
    (do_post_from cfg E response0 printed (S fuel) retries use_refresh no_log relative_path
       body_str c o).2.
Proof.
  one_pass Hlt; pass_idle Hidle c o; destruct no_log; client_step; rewrite Hok; client_step;
    (split; [reflexivity | retried_now]).
Qed.

End Writes.

Section Reads.
Hypothesis Hok : forall request, process_with_promise E (tick o) request = Returns r.

Lemma get_record_ok_pass did collection rkey :
  (get_record_from E response0 (S fuel) retries did collection rkey c o).1 = (Normal r, c) /\
  retried 1 1 o (get_record_from E response0 (S fuel) retries did collection rkey c o).2.
Proof.
  one_pass Hlt; client_step; rewrite Hok; client_step; (split; [reflexivity | retried_now]).
Qed.

Lemma do_get_ok_pass relative_path callback :
  (do_get_from E response0 (S fuel) retries relative_path callback c o).1 = (Normal r, c) /\
  retried 1 1 o (do_get_from E response0 (S fuel) retries relative_path callback c o).2.
Proof.
  one_pass Hlt; client_step; rewrite Hok; client_step; (split; [reflexivity | retried_now]).
Qed.

End Reads.
End Answered.

Section Recovering.
Context {A : Type}.
Variable loop : nat -> nat -> M client A.
Variable c : client.
Variable a : A.
Variables stride limit : nat.
Variables failing answered : nat -> Prop.
Hypothesis pass : forall fuel retries o,
  (retries < limit)%nat -> failing (tick o) ->
  exists o1, loop (S fuel) retries c o = loop fuel (S retries) c o1 /\ retried stride 1 o o1.
Hypothesis answer : forall fuel retries o,
  (retries < 5)%nat -> answered (tick o) ->
  (loop (S fuel) retries c o).1 = (Normal a, c) /\
  retried stride 1 o (loop (S fuel) retries c o).2.

Lemma recovers n fuel o :
  (n <= limit)%nat -> (n < 5)%nat ->
  (forall i, (i < n)%nat -> failing (tick o + stride * i)%nat) ->
  answered (tick o + stride * n)%nat ->
  (loop (n + S fuel)%nat 0%nat c o).1 = (Normal a, c) /\
  List.length (requests (loop (n + S fuel)%nat 0%nat c o).2) =
    (List.length (requests o) + S n)%nat.
Proof.
  intros Hlimit Hn Hfail Hok.
  destruct (skips loop c stride limit failing pass n (S fuel) 0%nat o)
    as (o' & Hskip & Hsteps); [lia | exact Hfail |].
  rewrite Hskip.
  destruct Hsteps as (Ht & Hr & _).
  destruct (answer fuel (0 + n)%nat o') as (Hres & _ & Hlen & _); [lia | |].
  - rewrite Ht. exact Hok.
  - split; [exact Hres | lia].
Qed.

End Recovering.

(** X7. Fewer than five read-EOFs in a row and then an answer: the operation
    returns the answer, the client is unchanged, and it has sent one request
    per pass. *)
Theorem perform_recovers_from_eofs op c o e r n :
  is_eof e = true -> (n < 5)%nat ->
  (refreshes_first op = true ->
   forall i, (i <= n)%nat -> idle_at cfg E c (tick o + 2 * i)) ->
  (forall i, (i < n)%nat -> fails_at E (attempt_tick op o i) e) ->
  (forall request, process_with_promise E (attempt_tick op o n) request = Returns r) ->
  (perform cfg E response0 printed op c o).1 = (Normal r, c) /\
  List.length (requests (perform cfg E response0 printed op c o).2) =
    (List.length (requests o) + S n)%nat.
Proof.
  intros Hkind Hn Hidle Hfail Hok.
  destruct e as [code w | w | w]; cbn [is_eof] in Hkind; try discriminate.
  assert (Hfive : 5%nat = (n + S (4 - n))%nat) by lia.
  assert (Hwrites : refreshes_first op = true ->
            (forall i, (i < n)%nat ->
               idle_at cfg E c (tick o + 2 * i)%nat /\
               fails_at E (S (tick o + 2 * i)) (system_error code w)) /\
            idle_at cfg E c (tick o + 2 * n)%nat /\
            forall request,
              process_with_promise E (S (tick o + 2 * n)) request = Returns r).
  { intros Hop. unfold attempt_tick in Hfail, Hok. rewrite Hop in Hfail, Hok.
    split; [| split].
    - intros i Hi. split; [apply Hidle; [exact Hop | lia] |].
      replace (S (tick o + 2 * i)) with (tick o + 2 * i + 1)%nat by lia. apply Hfail, Hi.
    - apply Hidle; [exact Hop | lia].
    - intros request.
      replace (S (tick o + 2 * n)) with (tick o + 2 * n + 1)%nat by lia. apply Hok. }
  assert (Hreads : refreshes_first op = false ->
            (forall i, (i < n)%nat ->
               fails_at E (tick o + 1 * i)%nat (system_error code w)) /\
            forall request,
              process_with_promise E (tick o + 1 * n)%nat request = Returns r).
  { intros Hop. unfold attempt_tick in Hfail, Hok. rewrite Hop in Hfail, Hok.
    split.
    - intros i Hi. rewrite Nat.mul_1_l. apply Hfail, Hi.
    - intros request. rewrite Nat.mul_1_l. apply Hok. }
  destruct op; cbn [perform refreshes_first] in *;
    unfold do_post, create_record, put_record, get_record, emit_event, do_get;
    rewrite Hfive.
  - destruct (Hwrites eq_refl) as (Hf & Hi & Ho).
    apply (recovers
             (fun fuel retries =>
                do_post_from cfg E response0 printed fuel retries use_refresh no_log
                  relative_path body_str) c r 2 4
             (fun k => idle_at cfg E c k /\ fails_at E (S k) (system_error code w))
             (fun k => idle_at cfg E c k /\
                       forall request, process_with_promise E (S k) request = Returns r)
             (do_post_eof_pass c code w Hkind use_refresh no_log relative_path body_str)
             (fun fuel retries o Hlt Hfin =>
                do_post_ok_pass c r fuel retries o Hlt (proj1 Hfin) (proj2 Hfin)
                  use_refresh no_log relative_path body_str));
      [lia | lia | exact Hf | split; [exact Hi | exact Ho]].
  - destruct (Hwrites eq_refl) as (Hf & Hi & Ho).
    apply (recovers
             (fun fuel retries =>
                create_record_from cfg E response0 printed fuel retries record_str) c r 2 5
             (fun k => idle_at cfg E c k /\ fails_at E (S k) (system_error code w))
             (fun k => idle_at cfg E c k /\
                       forall request, process_with_promise E (S k) request = Returns r)
             (create_record_eof_pass c code w Hkind record_str)
             (fun fuel retries o Hlt Hfin =>
                create_record_ok_pass c r fuel retries o Hlt (proj1 Hfin) (proj2 Hfin)
                  record_str));
      [lia | lia | exact Hf | split; [exact Hi | exact Ho]].
  - destruct (Hwrites eq_refl) as (Hf & Hi & Ho).
    apply (recovers
             (fun fuel retries => put_record_from cfg E response0 fuel retries record_str)
             c r 2 5
             (fun k => idle_at cfg E c k /\ fails_at E (S k) (system_error code w))
             (fun k => idle_at cfg E c k /\
                       forall request, process_with_promise E (S k) request = Returns r)
             (put_record_eof_pass c code w Hkind record_str)
             (fun fuel retries o Hlt Hfin =>
                put_record_ok_pass c r fuel retries o Hlt (proj1 Hfin) (proj2 Hfin)
                  record_str));
      [lia | lia | exact Hf | split; [exact Hi | exact Ho]].
  - destruct (Hreads eq_refl) as (Hf & Ho).
    apply (recovers
             (fun fuel retries =>
                get_record_from E response0 fuel retries did collection rkey) c r 1 4
             (fun k => fails_at E k (system_error code w))
             (fun k => forall request, process_with_promise E k request = Returns r)
             (get_record_eof_pass c code w Hkind did collection rkey)
             (fun fuel retries o Hlt Hfin =>
                get_record_ok_pass c r fuel retries o Hlt Hfin did collection rkey));
      [lia | lia | exact Hf | exact Ho].
  - destruct (Hwrites eq_refl) as (Hf & Hi & Ho).
    apply (recovers
             (fun fuel retries => emit_event_from cfg E response0 printed fuel retries body)
             c r 2 5
             (fun k => idle_at cfg E c k /\ fails_at E (S k) (system_error code w))
             (fun k => idle_at cfg E c k /\
                       forall request, process_with_promise E (S k) request = Returns r)
             (emit_event_eof_pass c code w Hkind body)
             (fun fuel retries o Hlt Hfin =>
                emit_event_ok_pass c r fuel retries o Hlt (proj1 Hfin) (proj2 Hfin) body));
      [lia | lia | exact Hf | split; [exact Hi | exact Ho]].
  - destruct (Hreads eq_refl) as (Hf & Ho).
    apply (recovers
             (fun fuel retries => do_get_from E response0 fuel retries relative_path callback)
             c r 1 5
             (fun k => fails_at E k (system_error code w))
             (fun k => forall request, process_with_promise E k request = Returns r)
             (do_get_eof_pass c code w Hkind relative_path callback)
             (fun fuel retries o Hlt Hfin =>
                do_get_ok_pass c r fuel retries o Hlt Hfin relative_path callback));
      [lia | lia | exact Hf | exact Ho].
Qed.


(** A pass of [send_report] whose request is answered counts the report and
    sets [done]. *)
Lemma send_report_ok_pass did reason_str reason_name body c r fuel retries o :
  (retries < 5)%nat ->
  idle_at cfg E c (tick o) ->
  (forall request, process_with_promise E (S (tick o)) request = Returns r) ->
  (send_report_from cfg E printed (S fuel) retries did reason_str reason_name body c o).1 =
    (Normal true, c) /\
  List.length
    (requests (send_report_from cfg E printed (S fuel) retries did reason_str reason_name
                 body c o).2) = (List.length (requests o) + 1)%nat /\
  increments "automation" "report" reason_name
    (send_report_from cfg E printed (S fuel) retries did reason_str reason_name body c o).2 =
    S (increments "automation" "report" reason_name o) /\
  increments "automation" "report_error" reason_name
    (send_report_from cfg E printed (S fuel) retries did reason_str reason_name body c o).2 =
    increments "automation" "report_error" reason_name o.
Proof.
  intros Hlt Hidle Hok.
  one_pass Hlt; pass_idle Hidle c o; client_step; rewrite Hok; client_step;
    (split; [reflexivity |]); (split; [count_requests |]);
    unfold increments; cbn [trace emit bump snd];
    rewrite <- ?app_assoc, ?List.filter_app, ?length_app; cbn;
    rewrite ?String.eqb_refl; cbn; split; lia.
Qed.

(** X9. Outside dry-run mode, and while no refresh falls due in any of the
    passes, a report that is answered after fewer than five read-EOFs in a
    row is counted once as sent and not as an error; the call returns with
    the client as it was and has sent one request per pass. *)
Theorem send_report_recovers_from_eofs did reason_str reason_name body c o e r n :
  _dry_run c = false ->
  is_eof e = true -> (n < 5)%nat ->
  (forall i, (i <= n)%nat -> idle_at cfg E c (tick o + 2 * i)) ->
  (forall i, (i < n)%nat -> fails_at E (tick o + 2 * i + 1) e) ->
  (forall request, process_with_promise E (tick o + 2 * n + 1) request = Returns r) ->
  (send_report cfg E printed did reason_str reason_name body c o).1 = (Normal tt, c) /\
  List.length (requests (send_report cfg E printed did reason_str reason_name body c o).2) =
    (List.length (requests o) + S n)%nat /\
  increments "automation" "report" reason_name
    (send_report cfg E printed did reason_str reason_name body c o).2 =
    S (increments "automation" "report" reason_name o) /\
  increments "automation" "report_error" reason_name
    (send_report cfg E printed did reason_str reason_name body c o).2 =
    increments "automation" "report_error" reason_name o.
Proof.
  intros Hdry Hkind Hn Hidle Hfail Hok.
  destruct e as [code w | w | w]; cbn [is_eof] in Hkind; try discriminate.
  rewrite (send_report_not_dry cfg E printed did reason_str reason_name body c o Hdry).
  cbv zeta.
  set (o0 := if _is_ready c then o else emit _ o).
  assert (Ht0 : tick o0 = tick o) by (subst o0; destruct (_is_ready c); reflexivity).
  assert (Hr0 : requests o0 = requests o).
  { subst o0. destruct (_is_ready c); [reflexivity |].
    rewrite requests_emit. apply app_nil_r. }
  assert (Hi0 : forall l v, increments "automation" l v o0 = increments "automation" l v o).
  { intros l v. subst o0. destruct (_is_ready c); [reflexivity |].
    unfold increments, emit. cbn [trace]. rewrite List.filter_app, length_app. cbn. lia. }
  replace 5%nat with (n + S (4 - n))%nat by lia.
  destruct (skips (fun fuel retries =>
              send_report_from cfg E printed fuel retries did reason_str reason_name body)
              c 2 5 _
              (send_report_eof_pass c code w Hkind did reason_str reason_name body)
              n (S (4 - n)) 0%nat o0) as (o' & Hskip & Ht & Hr & _ & Hi); [lia | |].
  { intros i Hi. rewrite Ht0. split; [apply Hidle; lia |].
    replace (S (tick o + 2 * i)) with (tick o + 2 * i + 1)%nat by lia. apply Hfail, Hi. }
  rewrite Hskip.
  destruct (send_report_ok_pass did reason_str reason_name body c r (4 - n) (0 + n) o')
    as (Hres & Hlen & Hsent & Herr); [lia | | |].
  - rewrite Ht, Ht0. apply Hidle. lia.
  - intros request. rewrite Ht, Ht0.
    replace (S (tick o + 2 * n)) with (tick o + 2 * n + 1)%nat by lia. apply Hok.
  - destruct (send_report_from cfg E printed (S (4 - n)) (0 + n) did reason_str reason_name
                body c o') as [[res c'] o''].
    cbn [fst snd] in *. inversion Hres; subst res c'. cbn [fst snd].
    rewrite Hlen, Hr, Hr0, Hsent, Herr, !Hi, !Hi0.
    split; [reflexivity | split; [lia | split; reflexivity]].
Qed.

(** [check_refresh] talks to the server through the session only: it sends
    no request of the client's own. *)
Lemma session_check_refresh_requests s o :
  requests (Session.check_refresh cfg (session_env E) s o).2 = requests o.
Proof.
  unfold Session.check_refresh, Session.internal_connect, Session.do_post,
    Session.decode_expires_at, Session.now. run.
  destruct (is_empty (refreshJwt (Session._tokens s))); step;
    destruct (Session.refresh_due cfg s _); step; outcomes;
    unfold requests; cbn [trace emit bump snd]; rewrite <- ?app_assoc, ?omap_app;
    cbn; rewrite ?app_nil_r; reflexivity.
Qed.





























(** The reads never go through the session: no refresh, no reconnect, the
    client as it was, whatever the answers and however old the token. *)
Lemma get_record_from_leaves_session did collection rkey c fuel : forall retries o,
  (get_record_from E response0 fuel retries did collection rkey c o).1.2 = c /\
  forall p,
    Session.posts_to p (get_record_from E response0 fuel retries did collection rkey c o).2 =
    Session.posts_to p o.
Proof.
  induction fuel as [| fuel IH]; intros retries o; cbn [get_record_from];
    destruct (retries <? 5)%nat; try (split; reflexivity).
  unfold execute; unfold bind, get, when, log, tell, ret, modify, throw, try_catch, ask.
  cbn -[Nat.leb get_record_from].
  destruct (process_with_promise E (tick o) _) as [r | ex]; cbn -[Nat.leb get_record_from];
    [split; [reflexivity | same_posts] |].
  destruct ex as [code w | w | w]; [destruct (is_asio_eof code) |..];
    cbn -[Nat.leb get_record_from]; try (split; [reflexivity | same_posts]).
  destruct (5 <=? S retries)%nat; cbn -[Nat.leb get_record_from];
    [split; [reflexivity | same_posts] |].
  match goal with |- context [get_record_from E response0 fuel (S retries) _ _ _ c ?o1] =>
    destruct (IH (S retries) o1) as [Hc Hp]
  end.
  split; [exact Hc |]. intros p. rewrite Hp. same_posts.
Qed.

Lemma do_get_from_leaves_session relative_path callback c fuel : forall retries o,
  (do_get_from E response0 fuel retries relative_path callback c o).1.2 = c /\
  forall p,
    Session.posts_to p (do_get_from E response0 fuel retries relative_path callback c o).2 =
    Session.posts_to p o.
Proof.
  induction fuel as [| fuel IH]; intros retries o; cbn [do_get_from];
    destruct (retries <? 5)%nat; try (split; reflexivity).
  unfold execute; unfold bind, get, when, log, tell, ret, modify, throw, try_catch, ask.
  cbn -[do_get_from].
  destruct (process_with_promise E (tick o) _) as [r | ex]; cbn -[do_get_from];
    [split; [reflexivity | same_posts] |].
  destruct ex as [code w | w | w]; [destruct (is_asio_eof code) |..];
    cbn -[do_get_from]; try (split; [reflexivity | same_posts]).
  match goal with |- context [do_get_from E response0 fuel (S retries) _ _ c ?o1] =>
    destruct (IH (S retries) o1) as [Hc Hp]
  end.
  split; [exact Hc |]. intros p. rewrite Hp. same_posts.
Qed.

(** X12. The two reads, [get_record] and [do_get], never call
    [check_refresh]: whatever the server answers and however often they
    retry, the client and its session are left as they were and nothing is
    posted to the session endpoints. *)
Theorem reads_never_refresh did collection rkey relative_path callback c o :
  ((get_record E response0 did collection rkey c o).1.2 = c /\
   forall p, Session.posts_to p (get_record E response0 did collection rkey c o).2 =
             Session.posts_to p o) /\
  ((do_get E response0 relative_path callback c o).1.2 = c /\
   forall p, Session.posts_to p (do_get E response0 relative_path callback c o).2 =
             Session.posts_to p o).
Proof.
  split; [apply get_record_from_leaves_session | apply do_get_from_leaves_session].
Qed.

(** X13. The writes that always authorize send the token the session holds after
    [check_refresh], so a token rotated (or a session re-established) by
    that very call is the one on the wire, in the same pass. *)
Theorem write_carries_token_after_refresh op c o s1 o1 r :
  writes_with_access_token op = true ->
  Session.check_refresh cfg (session_env E) (_session c) o = (Normal tt, s1, o1) ->
  (forall request, process_with_promise E (tick o1) request = Returns r) ->
  (perform cfg E response0 printed op c o).1 = (Normal r, set_session s1 c) /\
  exists request,
    requests (perform cfg E response0 printed op c o).2 = requests o ++ [request] /\
    In (bearer (accessJwt (Session._tokens s1))) (headers request).
Proof.
  intros Hop Hrefresh Hok.
  pose proof (session_check_refresh_requests (_session c) o) as Hreq.
  rewrite Hrefresh in Hreq. cbn [snd] in Hreq.
  assert (Hlt : (0 < 5)%nat) by lia.
  destruct op; cbn [writes_with_access_token] in Hop; try discriminate; cbn [perform];
    unfold create_record, put_record, emit_event; one_pass Hlt;
    unfold check_refresh, zoom; rewrite Hrefresh; cbn -[Session.check_refresh];
    rewrite Hok; cbn -[Session.check_refresh];
    (split; [reflexivity |]); eexists;
    (split;
     [ unfold requests in *; cbn [trace emit bump snd];
       rewrite <- ?app_assoc, ?omap_app; cbn; rewrite ?app_nil_r, Hreq; reflexivity
     | cbn; unfold access_token; cbn; auto ]).
Qed.

(** X14. When [check_refresh] fails with anything but the read-EOF, the write is
    given up before its request is built: the error reaches the caller and
    nothing is sent. *)
Theorem failed_refresh_sends_nothing op c o s1 o1 e :
  refreshes_first op = true ->
  Session.check_refresh cfg (session_env E) (_session c) o = (Thrown e, s1, o1) ->
  is_eof e = false ->
  (perform cfg E response0 printed op c o).1 = (Thrown e, set_session s1 c) /\
  requests (perform cfg E response0 printed op c o).2 = requests o.
Proof.
  intros Hop Hrefresh Hkind.
  pose proof (session_check_refresh_requests (_session c) o) as Hreq.
  rewrite Hrefresh in Hreq. cbn [snd] in Hreq.
  assert (Hlt : (0 < 5)%nat) by lia.
  destruct op; cbn [refreshes_first] in Hop; try discriminate; cbn [perform];
    unfold do_post, create_record, put_record, emit_event; one_pass Hlt;
    unfold check_refresh, zoom; rewrite Hrefresh; cbn -[Session.check_refresh];
    destruct e as [code w | w | w]; cbn [is_eof] in Hkind; try rewrite Hkind;
    cbn -[Session.check_refresh];
    (split;
     [ reflexivity
     | unfold requests in *; cbn [trace emit bump snd];
       rewrite <- ?app_assoc, ?omap_app; cbn; rewrite ?app_nil_r, ?Hreq; reflexivity ]).
Qed.

(** ** What reaches the caller *)

(** [n] failing passes and then a pass that ends the loop with [res]. *)
Section Ending.
Context {A : Type}.
Variable loop : nat -> nat -> M client A.
Variable c : client.
Variable res : result A.
Variables stride limit : nat.
Variables failing lasting : nat -> Prop.
Hypothesis pass : forall fuel retries o,
  (retries < limit)%nat -> failing (tick o) ->
  exists o1, loop (S fuel) retries c o = loop fuel (S retries) c o1 /\ retried stride 1 o o1.
Hypothesis last_pass : forall fuel retries o,
  (retries < 5)%nat -> lasting (tick o) ->
  (loop (S fuel) retries c o).1 = (res, c) /\
  List.length (requests (loop (S fuel) retries c o).2) = (List.length (requests o) + 1)%nat.


End Ending.



















Lemma increments_bump f l v o : increments f l v (bump o) = increments f l v o.
Proof. reflexivity. Qed.


Ltac counted :=
  repeat (rewrite increments_emit || rewrite increments_bump); cbn [is_increment]; simpl;
  rewrite ?String.eqb_refl; simpl.




End LoopFacts.

(** ** Embed checker: the counts *)

Section CheckerMore.
Import Checker Handler.
Variable cfg : settings.
Variable E : Checker.env.

Lemma says_only_refl o : says_only o o.
Proof. split; [reflexivity |]. exists []. split; [symmetry; apply app_nil_r | reflexivity]. Qed.

Lemma says_only_trans o1 o2 o3 : says_only o1 o2 -> says_only o2 o3 -> says_only o1 o3.
Proof.
  intros [Ht1 (said1 & Hs1 & Hc1)] [Ht2 (said2 & Hs2 & Hc2)].
  split; [congruence |]. exists (said1 ++ said2). split.
  - rewrite Hs2, Hs1, app_assoc. reflexivity.
  - rewrite forallb_app, Hc1, Hc2. reflexivity.
Qed.

Lemma says_only_emit e o o1 : chatter e = true -> says_only o o1 -> says_only o (emit e o1).
Proof.
  intros He [Ht (said & Hs & Hc)]. split; [exact Ht |].
  exists (said ++ [e]). split.
  - cbn [emit trace]. rewrite Hs, app_assoc. reflexivity.
  - rewrite forallb_app, Hc. cbn. rewrite He. reflexivity.
Qed.

Lemma knows_more_refl c : knows_more c c.
Proof. repeat split; auto. Qed.

Lemma knows_more_trans c1 c2 c3 : knows_more c1 c2 -> knows_more c2 c3 -> knows_more c1 c3.
Proof.
  intros (Hp1 & Hw1 & Hk1) (Hp2 & Hw2 & Hk2).
  split; [congruence |]. split; [congruence |]. auto.
Qed.

Lemma checked_set_other k k' m c : k' <> k -> checked k' (set_checked k m c) = checked k' c.
Proof. destruct k, k'; intros Hne; try reflexivity; destruct Hne; reflexivity. Qed.

Lemma checked_set_same k m c : checked k (set_checked k m c) = m.
Proof. destruct k; reflexivity. Qed.

(** What one run of the body shared by the four [*_seen] leaves behind. *)
Lemma seen_run k repo path key c o :
  (seen cfg E k repo path key c o).1 =
    (Normal (bool_decide (is_Some (checked k c !! key))),
     set_checked k (<[key := counted (checked k c !! key)]> (checked k c)) c) /\
  says_only o (seen cfg E k repo path key c o).2.
Proof.
  unfold seen, bind, get, tell, modify, ret, when, log.
  cbn -[checked set_checked alert_needed uint64_incr factor_of emit].
  destruct (checked k c !! key) as [count |];
    cbn -[checked set_checked alert_needed uint64_incr factor_of emit];
    [destruct (alert_needed (uint64_incr count) (factor_of cfg k)) |];
    cbn -[checked set_checked alert_needed uint64_incr factor_of emit];
    (split; [reflexivity |]);
    repeat (apply says_only_emit; [destruct k; reflexivity |]); apply says_only_refl.
Qed.

(** X15. A sighting, in any of the four categories, answers whether the key
    had a count, stores 1 for a new key and the count plus one, modulo 2^64,
    for a known one, and leaves alone every other key, the other three
    categories, the host prefix and the whitelist. *)
Theorem seen_counts_one_key k repo path key c o :
  (seen cfg E k repo path key c o).1.1 = Normal (bool_decide (is_Some (checked k c !! key))) /\
  checked k (seen cfg E k repo path key c o).1.2 !! key =
    Some (counted (checked k c !! key)) /\
  (forall other, other <> key ->
     checked k (seen cfg E k repo path key c o).1.2 !! other = checked k c !! other) /\
  (forall k', k' <> k ->
     checked k' (seen cfg E k repo path key c o).1.2 = checked k' c) /\
  _uri_host_prefix (seen cfg E k repo path key c o).1.2 = _uri_host_prefix c /\
  _whitelist_uris (seen cfg E k repo path key c o).1.2 = _whitelist_uris c.
Proof.
  destruct (seen_run k repo path key c o) as [Hrun _]. rewrite Hrun. cbn [fst snd].
  split; [reflexivity |]. split; [| split; [| split; [| split]]].
  - rewrite checked_set_same. apply lookup_insert_eq.
  - intros other Hne. rewrite checked_set_same. apply lookup_insert_ne. congruence.
  - intros k' Hne. apply checked_set_other, Hne.
  - reflexivity.
  - reflexivity.
Qed.

Lemma seen_knows_more k repo path key c o :
  knows_more c (seen cfg E k repo path key c o).1.2 /\
  is_Some (checked k (seen cfg E k repo path key c o).1.2 !! key).
Proof.
  destruct (seen_run k repo path key c o) as [Hrun _]. rewrite Hrun. cbn [fst snd].
  split; [| rewrite checked_set_same, lookup_insert_eq; eauto].
  split; [reflexivity |]. split; [reflexivity |].
  intros k' key' Hsome.
  assert (Hk : k' = k \/ k' <> k)
    by (destruct k, k'; (left; reflexivity) || (right; discriminate)).
  destruct Hk as [-> | Hk]; [| rewrite checked_set_other; assumption].
  rewrite checked_set_same.
  destruct (decide (key' = key)) as [-> | Hkey']; [rewrite lookup_insert_eq; eauto |].
  rewrite lookup_insert_ne by congruence. assumption.
Qed.

(** [should_process_uri] answers [admitted], changes nothing and only
    chatters. *)
Lemma should_process_uri_run uri c o :
  (should_process_uri E uri c o).1 = (Normal (admitted E c uri), c) /\
  says_only o (should_process_uri E uri c o).2.
Proof.
  unfold should_process_uri, admitted, bind, get, tell, ret, log.
  destruct (parse_uri E (target_of uri)) as [host | message];
    cbn -[target_of trimmed_host emit].
  - destruct (decide (trimmed_host c host ∈ _whitelist_uris c)) as [Hin | Hout];
      cbn -[target_of trimmed_host emit].
    + rewrite bool_decide_eq_true_2 by exact Hin. split; [reflexivity |].
      apply says_only_emit; [reflexivity | apply says_only_refl].
    + rewrite bool_decide_eq_false_2 by exact Hout. split; [reflexivity |].
      apply says_only_refl.
  - split; [reflexivity |].
    repeat (apply says_only_emit; [reflexivity |]). apply says_only_refl.
Qed.

Lemma admitted_knows_more c c' uri : knows_more c c' -> admitted E c' uri = admitted E c uri.
Proof.
  intros (Hp & Hw & _). unfold admitted, trimmed_host. rewrite Hp, Hw. reflexivity.
Qed.

End CheckerMore.

(** ** Redirect follower: what a check leaves behind *)

Section HandlerMore.
Import Checker Handler.
Variable cfg : settings.
Variable E : Handler.env.

Ltac chats :=
  repeat (apply says_only_emit; [reflexivity |]); try assumption; try apply says_only_refl.

Lemma follows_on_refl h : follows_on [] h h.
Proof.
  split; [reflexivity |]. split; [reflexivity |].
  split; [symmetry; apply app_nil_r |].
  split; [apply knows_more_refl | intros u []].
Qed.

Lemma on_url_redirect_run code next h o :
  exists follow,
    (on_url_redirect cfg E code next h o).1.1 = Normal follow /\
    follows_on [next] h (on_url_redirect cfg E code next h o).1.2 /\
    _root_url (on_url_redirect cfg E code next h o).1.2 = _root_url h /\
    says_only o (on_url_redirect cfg E code next h o).2.
Proof.
  unfold on_url_redirect, checker, uri_seen, zoom, bind, get, modify, log, tell, ret, when.
  cbn -[seen should_process_uri emit].
  match goal with |- context [seen ?a ?b ?k ?r ?p ?u ?c ?o1] =>
    destruct (seen_run a b k r p u c o1) as [Hseen Hsaid];
    destruct (seen_knows_more a b k r p u c o1) as [Hmore Hknown];
    destruct (seen a b k r p u c o1) as [[res c1] o2]
  end.
  cbn [fst snd] in Hseen, Hsaid, Hmore, Hknown. injection Hseen as -> _.
  assert (Hsaid' : says_only o o2).
  { eapply says_only_trans; [| exact Hsaid]. chats. }
  cbn [_checker chain_emplace_back] in Hmore.
  assert (Hon : forall c2, knows_more c1 c2 ->
            follows_on [next] h (set_checker c2 (chain_emplace_back next h))).
  { intros c2 Hc2.
    split; [reflexivity |]. split; [reflexivity |]. split; [reflexivity |].
    cbn [_checker set_checker].
    split; [eapply knows_more_trans; eassumption |].
    intros u [<- | []]. apply (proj2 (proj2 Hc2) link), Hknown. }
  destruct (bool_decide _); cbn -[should_process_uri emit].
  - eexists. split; [reflexivity |]. split; [apply Hon, knows_more_refl |].
    split; [reflexivity | exact Hsaid'].
  - match goal with |- context [should_process_uri ?b ?u ?c ?o1] =>
      destruct (should_process_uri_run b u c o1) as [Hgo Hsaid2];
      destruct (should_process_uri b u c o1) as [[res c2] o3]
    end.
    cbn [fst snd] in Hgo, Hsaid2. injection Hgo as -> ->. cbn -[emit].
    assert (Hsaid3 : says_only o o3) by (eapply says_only_trans; eassumption).
    destruct (admitted _ _ _); cbn -[emit].
    + eexists. split; [reflexivity |]. split; [apply Hon, knows_more_refl |].
      split; [reflexivity | exact Hsaid3].
    + destruct (all_matches_for_candidates _ _); cbn -[emit];
        (eexists; split; [reflexivity |]; split; [apply Hon, knows_more_refl |];
         split; [reflexivity | chats]).
Qed.

Lemma follows_on_app urls1 urls2 h1 h2 h3 :
  follows_on urls1 h1 h2 -> follows_on urls2 h2 h3 -> follows_on (urls1 ++ urls2) h1 h3.
Proof.
  intros (Hr1 & Hp1 & Hc1 & Hm1 & Hk1) (Hr2 & Hp2 & Hc2 & Hm2 & Hk2).
  split; [congruence |]. split; [congruence |].
  split; [rewrite Hc2, Hc1, app_assoc; reflexivity |].
  split; [eapply knows_more_trans; eassumption |].
  intros u Hin. apply in_app_or in Hin as [Hin | Hin]; [| auto].
  apply (proj2 (proj2 Hm2) link), Hk1, Hin.
Qed.

Lemma deliver_run redirects : forall h o,
  (deliver cfg E redirects h o).1.1 = Normal tt /\
  follows_on (map snd redirects) h (deliver cfg E redirects h o).1.2 /\
  _root_url (deliver cfg E redirects h o).1.2 = _root_url h /\
  says_only o (deliver cfg E redirects h o).2.
Proof.
  induction redirects as [| [code next] rest IH]; intros h o; cbn [deliver].
  - split; [reflexivity |]. split; [apply follows_on_refl |].
    split; [reflexivity | apply says_only_refl].
  - unfold bind.
    destruct (on_url_redirect_run code next h o) as (follow & Hres & Hon & Hroot & Hsaid).
    destruct (on_url_redirect cfg E code next h o) as [[res h1] o1].
    cbn [fst snd] in Hres, Hon, Hroot, Hsaid. subst res.
    destruct (IH h1 o1) as (Hres' & Hon' & Hroot' & Hsaid').
    split; [exact Hres' |]. split; [| split; [congruence |]].
    + change (map snd ((code, next) :: rest)) with ([next] ++ map snd rest).
      eapply follows_on_app; eassumption.
    + eapply says_only_trans; eassumption.
Qed.

(** One pass through the loop body, by the run of the request: the flags
    it sets, how far the handler gets, and the output in order. *)
Lemma attempt_run uri h o :
  let run := rest_client E (tick o) (browser_request (_root_url h)) in
  let pass :=
    attempt cfg E uri 0 {| done := false; completed := false; overflow := false |} h o in
  exists f' retries' said,
    pass.1.1 = Normal (f', retries', true) /\ done f' = true /\
    completed f' = match run with started _ (Returns _) => true | _ => false end /\
    overflow f' = match run with start_throws (ConstraintException _) => true | _ => false end /\
    follows_on (redirected_to run) h pass.1.2 /\
    _root_url pass.1.2 = _root_url h /\
    tick pass.2 = S (tick o) /\
    forallb chatter said = true /\
    trace pass.2 =
      trace o ++ ProcessWithPromise (_root_url h) :: said ++
      match run with
      | start_throws (ConstraintException _) =>
        [ReportAgentEnqueue (_repo h) (_path h) (_uri_chain h)]
      | _ => []
      end.
Proof.
  unfold attempt, try_catch, bind, get, ask, throw, ret, log, tell, browser_request.
  cbn -[deliver emit bump].
  destruct (rest_client E (tick o) _) as [e | redirects finish]; cbn -[deliver emit bump].
  - destruct e; cbn -[emit bump]; eexists; eexists; eexists (cons _ nil);
      (split; [reflexivity |]); (split; [reflexivity |]); (split; [reflexivity |]);
      (split; [reflexivity |]); (split; [apply follows_on_refl |]);
      (split; [reflexivity |]); (split; [reflexivity |]);
      (split; [| cbn; rewrite <- ?app_assoc; reflexivity]); reflexivity.
  - match goal with |- context [deliver cfg E redirects ?h1 ?o1] =>
      destruct (deliver_run redirects h1 o1) as (Hres & Hon & Hroot & [Htick (said & Hsaid & Hchat)]);
      destruct (deliver cfg E redirects h1 o1) as [[res h2] o2]
    end.
    cbn [fst snd] in Hres, Hon, Hroot, Htick, Hsaid. subst res.
    cbn [trace emit bump tick] in Htick, Hsaid.
    cbn -[emit bump].
    destruct finish as [u | e]; cbn -[emit bump].
    + exists (set_done (set_completed {| done := false; completed := false; overflow := false |})),
        0%nat, said.
      repeat (split; [first [reflexivity | assumption] |]).
      cbn [snd]. rewrite Hsaid, <- app_assoc, app_nil_r. reflexivity.
    + destruct e as [code w | w | w]; cbn -[emit bump];
        [destruct (is_asio_eof code); cbn -[emit bump] |..];
        eexists; eexists; eexists (said ++ cons _ nil);
        (split; [reflexivity |]); (split; [reflexivity |]); (split; [reflexivity |]);
        (split; [reflexivity |]); (split; [exact Hon |]); (split; [exact Hroot |]);
        (split; [exact Htick |]);
        (split;
           [| cbn [snd emit trace]; rewrite Hsaid, <- !app_assoc; cbn; rewrite ?app_nil_r;
              reflexivity]);
        rewrite forallb_app, Hchat; reflexivity.
Qed.

(** The whole of [operator()(embed::external)], for any handler and any
    HTTP layer. *)
Lemma external_run fuel uri h o :
  let run := rest_client E (tick o) (browser_request uri) in
  let r := external cfg E (S fuel) uri h o in
  r.1.1 = Normal tt /\
  if to_follow E (_checker h) uri then
    follows_on (uri :: redirected_to run) h r.1.2 /\ _root_url r.1.2 = uri /\
    tick r.2 = S (tick o) /\
    exists said1 said2,
      forallb chatter said1 = true /\ forallb chatter said2 = true /\
      trace r.2 =
        trace o ++ said1 ++ ProcessWithPromise uri :: said2 ++
        map report_event (reported run h uri) ++
        [Increment "embed_stats" "link" (outcome_counter run);
         Observe "link_stats" "redirection" "hops" (Z.of_nat (List.length (_uri_chain r.1.2)));
         Log Info "Redirect check complete {} hops for {}"
           [a_num (Z.of_nat (List.length (_uri_chain r.1.2))); a_list (_uri_chain r.1.2)]]
  else
    follows_on [] h r.1.2 /\ _root_url r.1.2 = _root_url h /\
    is_Some (_checked_uris (_checker r.1.2) !! uri) /\ says_only o r.2.
Proof.
  cbv zeta. rewrite external_fuel.
  unfold external, checker, uri_seen, zoom, bind, get, to_follow.
  cbn -[check_loop seen should_process_uri emit].
  destruct (seen_run cfg (libs E) link (_repo h) (_path h) uri (_checker h) o) as [Hseen Hsaid].
  destruct (seen_knows_more cfg (libs E) link (_repo h) (_path h) uri (_checker h) o)
    as [Hmore Hknown].
  destruct (seen cfg (libs E) link (_repo h) (_path h) uri (_checker h) o) as [[res c1] o1].
  cbn [fst snd] in Hseen, Hsaid, Hmore, Hknown. injection Hseen as -> _.
  cbn [checked] in *.
  assert (Hskip : follows_on [] h (set_checker c1 h)).
  { split; [reflexivity |]. split; [reflexivity |]. split; [symmetry; apply app_nil_r |].
    split; [exact Hmore | intros u []]. }
  destruct (_checked_uris (_checker h) !! uri) as [count |] eqn:Hcount.
  { rewrite bool_decide_eq_true_2 by eauto. cbn.
    split; [reflexivity |]. split; [exact Hskip |]. split; [reflexivity |].
    split; [exact Hknown | exact Hsaid]. }
  rewrite bool_decide_eq_false_2 by (apply is_Some_None).
  cbn -[check_loop should_process_uri emit].
  destruct (should_process_uri_run (libs E) uri c1 o1) as [Hgo Hsaid1].
  destruct (should_process_uri (libs E) uri c1 o1) as [[res c2] o2].
  cbn [fst snd] in Hgo, Hsaid1. injection Hgo as -> ->.
  rewrite (admitted_knows_more (libs E) (_checker h) c1 uri Hmore).
  assert (Hsaid2 : says_only o o2) by (eapply says_only_trans; eassumption).
  destruct (admitted (libs E) (_checker h) uri); cbn -[check_loop emit].
  2: { split; [reflexivity |]. split; [exact Hskip |]. split; [reflexivity |].
       split; [exact Hknown | exact Hsaid2]. }
  unfold modify, log, tell, ret. cbn -[attempt emit]. unfold bind.
  match goal with |- context [attempt cfg E uri 0 ?f0 ?h1 ?o3] =>
    destruct (attempt_run uri h1 o3)
      as (f' & retries' & said & Hres & Hdone & Hcompleted & Hoverflow & Hon & Hroot &
          Htick & Hchat & Htrace);
    destruct (attempt cfg E uri 0 f0 h1 o3) as [[res h3] o4]
  end.
  cbn [fst snd] in Hres, Hon, Hroot, Htick, Htrace. subst res.
  destruct Hsaid2 as [Htick2 (said1 & Htrace2 & Hchat1)].
  cbn [tick emit trace _root_url chain_emplace_back set_root_url set_checker
       _repo _path _uri_chain] in Hcompleted, Hoverflow, Hon, Hroot, Htick, Htrace.
  rewrite Htick2 in Hcompleted, Hoverflow, Hon, Htick, Htrace.
  cbn -[emit]. rewrite Hdone. cbn -[emit].
  assert (Hchain : follows_on
            (uri :: redirected_to (rest_client E (tick o) (browser_request uri))) h h3).
  { destruct Hon as (Hr & Hp & Hc & Hm & Hk).
    cbn [_repo _path _uri_chain _checker chain_emplace_back set_root_url set_checker] in *.
    split; [exact Hr |]. split; [exact Hp |].
    split; [rewrite Hc, <- app_assoc; reflexivity |].
    split; [eapply knows_more_trans; eassumption |].
    intros u [<- | Hin]; [apply (proj2 (proj2 Hm) link), Hknown | apply Hk, Hin]. }
  assert (Hout : forall last,
    trace (emit last
      (emit (Observe "link_stats" "redirection" "hops" (Z.of_nat (List.length (_uri_chain h3))))
        (emit (Increment "embed_stats" "link"
                 (outcome_counter (rest_client E (tick o) (browser_request uri)))) o4))) =
    trace o ++ (said1 ++ [Log Info "Redirect check starting for {}" [a_str uri]]) ++
    ProcessWithPromise uri :: said ++
    map report_event (reported (rest_client E (tick o) (browser_request uri)) h uri) ++
    [Increment "embed_stats" "link"
       (outcome_counter (rest_client E (tick o) (browser_request uri)));
     Observe "link_stats" "redirection" "hops" (Z.of_nat (List.length (_uri_chain h3)));
     last]).
  { intros last. cbn [emit trace]. rewrite Htrace, Htrace2.
    destruct (rest_client E (tick o) (browser_request uri)) as [[code w | w | w] | redirects finish];
      cbn [reported map report_event fst snd];
      rewrite <- ?app_assoc; cbn [app]; rewrite <- ?app_assoc; reflexivity. }
  assert (Hchat1' : forallb chatter
            (said1 ++ [Log Info "Redirect check starting for {}" [a_str uri]]) = true)
    by (rewrite forallb_app, Hchat1; reflexivity).
  destruct (rest_client E (tick o) (browser_request uri))
    as [[code w | w | w] | redirects [u | e]];
    rewrite Hcompleted; try rewrite Hoverflow; cbn -[emit];
    (split; [reflexivity |]); (split; [exact Hchain |]); (split; [exact Hroot |]);
    (split; [exact Htick |]); eexists; exists said;
    (split; [exact Hchat1' |]); (split; [exact Hchat |]); apply Hout.
Qed.

Lemma omap_chatter {A} (f : event -> option A) said :
  (forall e, chatter e = true -> f e = None) ->
  forallb chatter said = true -> omap f said = [].
Proof.
  intros Hf. induction said as [| e said IH]; [reflexivity |].
  cbn [forallb]. intros Hall. apply andb_prop in Hall as [He Hall].
  cbn. rewrite (Hf e He). apply IH, Hall.
Qed.

Lemma chatter_not_outcome v e :
  outcome_label v -> chatter e = true -> is_increment "embed_stats" "link" v e = false.
Proof.
  intros Hv. destruct e as [| f l v' | | | | | | |]; try reflexivity.
  cbn [chatter quiet is_increment].
  destruct (String.eqb f "embed_stats"); [| reflexivity].
  destruct (String.eqb l "link"); [| reflexivity].
  destruct (String.eqb_spec v' v) as [-> | Hne]; [| reflexivity].
  destruct Hv as [-> | [-> | ->]]; intros H; discriminate H.
Qed.

Lemma filter_chatter v said :
  outcome_label v -> forallb chatter said = true ->
  List.filter (is_increment "embed_stats" "link" v) said = [].
Proof.
  intros Hv. induction said as [| e said IH]; [reflexivity |].
  cbn [forallb]. intros Hall. apply andb_prop in Hall as [He Hall].
  cbn [List.filter]. rewrite (chatter_not_outcome v e Hv He). apply IH, Hall.
Qed.

Lemma outcome_counter_label run : outcome_label (outcome_counter run).
Proof.
  destruct run as [[code w | w | w] | redirects [u | e]]; cbn; unfold outcome_label; auto.
Qed.

Ltac silent :=
  first [ assumption
        | let e := fresh "e" in let H := fresh "H" in
          intros e H; destruct e; try reflexivity; discriminate H ].

Lemma says_only_started o o' : says_only o o' -> started_requests o' = started_requests o.
Proof.
  intros [_ (said & Htrace & Hchat)]. unfold started_requests.
  rewrite Htrace, omap_app, (omap_chatter _ said) by silent. apply app_nil_r.
Qed.

Lemma says_only_reports o o' : says_only o o' -> reports o' = reports o.
Proof.
  intros [_ (said & Htrace & Hchat)]. unfold reports.
  rewrite Htrace, omap_app, (omap_chatter _ said) by silent. apply app_nil_r.
Qed.

Lemma says_only_hops o o' : says_only o o' -> hops_observed o' = hops_observed o.
Proof.
  intros [_ (said & Htrace & Hchat)]. unfold hops_observed.
  rewrite Htrace, omap_app, (omap_chatter _ said) by silent. apply app_nil_r.
Qed.

Lemma says_only_outcome v o o' :
  outcome_label v -> says_only o o' ->
  increments "embed_stats" "link" v o' = increments "embed_stats" "link" v o.
Proof.
  intros Hv [_ (said & Htrace & Hchat)]. unfold increments.
  rewrite Htrace, List.filter_app, (filter_chatter v said Hv Hchat), app_nil_r. reflexivity.
Qed.

Lemma says_only_outcomes o o' : says_only o o' -> outcomes o' = outcomes o.
Proof.
  intros Hsaid. unfold outcomes.
  rewrite !(says_only_outcome _ o o') by (assumption || (unfold outcome_label; auto)).
  reflexivity.
Qed.

Lemma reports_report_events rs t :
  reports {| trace := map report_event rs; tick := t |} = rs.
Proof.
  unfold reports. cbn [trace]. induction rs as [| [[repo path] chain] rs IH]; [reflexivity |].
  cbn. f_equal. exact IH.
Qed.

Lemma omap_shape {A} (f : event -> option A) base said1 e said2 rest :
  (forall e, chatter e = true -> f e = None) ->
  forallb chatter said1 = true -> forallb chatter said2 = true ->
  omap f (base ++ said1 ++ e :: said2 ++ rest) = omap f base ++ omap f [e] ++ omap f rest.
Proof.
  intros Hf H1 H2.
  change (e :: said2 ++ rest) with ([e] ++ said2 ++ rest).
  rewrite !omap_app, (omap_chatter f said1 Hf H1), (omap_chatter f said2 Hf H2). reflexivity.
Qed.

Lemma filter_shape v base said1 e said2 rest :
  outcome_label v ->
  forallb chatter said1 = true -> forallb chatter said2 = true ->
  List.filter (is_increment "embed_stats" "link" v) (base ++ said1 ++ e :: said2 ++ rest) =
  List.filter (is_increment "embed_stats" "link" v) base ++
  List.filter (is_increment "embed_stats" "link" v) [e] ++
  List.filter (is_increment "embed_stats" "link" v) rest.
Proof.
  intros Hv H1 H2.
  change (e :: said2 ++ rest) with ([e] ++ said2 ++ rest).
  rewrite !List.filter_app, (filter_chatter v said1 Hv H1), (filter_chatter v said2 Hv H2).
  reflexivity.
Qed.

Lemma omap_report_events {A} (f : event -> option A) rs :
  (forall repo path chain, f (ReportAgentEnqueue repo path chain) = None) ->
  omap f (map report_event rs) = [].
Proof.
  intros Hf. induction rs as [| [[repo path] chain] rs IH]; [reflexivity |].
  cbn. unfold report_event at 1. cbn [fst snd]. rewrite Hf. exact IH.
Qed.

Lemma filter_report_events v rs :
  List.filter (is_increment "embed_stats" "link" v) (map report_event rs) = [].
Proof. induction rs as [| [[repo path] chain] rs IH]; [reflexivity | exact IH]. Qed.

(** X16. An external embed whose URL has no count yet and is admitted by
    [should_process_uri] starts exactly one request, whatever the HTTP layer
    answers, a read-EOF included; the call returns, the termination counter
    that goes up by one is [outcome_counter] of the run while the other two
    stay, a report is enqueued exactly when starting the request throws
    [ConstraintException], and the histogram gets one sample, the length of
    the chain: what it was, plus one, plus the redirects of the run. *)
Theorem external_outcome_by_run fuel uri h o :
  to_follow E (_checker h) uri = true ->
  let run := rest_client E (tick o) (browser_request uri) in
  let r := external cfg E (S fuel) uri h o in
  r.1.1 = Normal tt /\
  started_requests r.2 = started_requests o ++ [uri] /\
  increments "embed_stats" "link" (outcome_counter run) r.2 =
    S (increments "embed_stats" "link" (outcome_counter run) o) /\
  outcomes r.2 = S (outcomes o) /\
  reports r.2 = reports o ++ reported run h uri /\
  hops_observed r.2 =
    hops_observed o ++
    [Z.of_nat (S (List.length (_uri_chain h) + List.length (redirected_to run)))].
Proof.
  intros Hfollow. cbv zeta.
  destruct (external_run fuel uri h o) as [Hres Hrun]. cbv zeta in Hrun.
  rewrite Hfollow in Hrun.
  destruct Hrun as (Hon & _ & _ & said1 & said2 & Hchat1 & Hchat2 & Htrace).
  destruct Hon as (_ & _ & Hchain & _).
  assert (Hlen : List.length (_uri_chain (external cfg E (S fuel) uri h o).1.2) =
                 S (List.length (_uri_chain h) +
                    List.length (redirected_to (rest_client E (tick o) (browser_request uri))))).
  { rewrite Hchain, length_app. cbn [List.length]. lia. }
  rewrite Hlen in Htrace.
  pose proof (outcome_counter_label (rest_client E (tick o) (browser_request uri))) as Hlabel.
  split; [exact Hres |]. split; [| split; [| split; [| split]]].
  - unfold started_requests. rewrite Htrace, omap_shape by silent.
    rewrite omap_app, omap_report_events by reflexivity. reflexivity.
  - unfold increments. rewrite Htrace, (filter_shape _ _ _ _ _ _ Hlabel Hchat1 Hchat2).
    rewrite List.filter_app, filter_report_events.
    cbn [List.filter is_increment app]. rewrite !String.eqb_refl. cbn.
    rewrite length_app. cbn. lia.
  - unfold outcomes, increments. rewrite Htrace.
    rewrite !filter_shape by (assumption || (unfold outcome_label; auto)).
    rewrite !List.filter_app, !filter_report_events. cbn [app]. rewrite !length_app.
    destruct (rest_client E (tick o) (browser_request uri))
      as [[code w | w | w] | redirects [u | e]]; cbn; lia.
  - unfold reports. rewrite Htrace, omap_shape by silent.
    rewrite omap_app. cbn [omap app]. rewrite app_nil_r. f_equal.
    apply (reports_report_events _ 0%nat).
  - unfold hops_observed. rewrite Htrace, omap_shape by silent.
    rewrite omap_app, omap_report_events by reflexivity. reflexivity.
Qed.

(** X17. For such an embed the handler ends with the URL as its root, and
    with the URL and then every URL handed to the redirect callback, in
    order, appended to its chain; each of them has a count in the checker
    afterwards, and nothing the checker counted before is lost. *)
Theorem external_advances_chain fuel uri h o :
  to_follow E (_checker h) uri = true ->
  let run := rest_client E (tick o) (browser_request uri) in
  let r := external cfg E (S fuel) uri h o in
  _root_url r.1.2 = uri /\
  _uri_chain r.1.2 = _uri_chain h ++ uri :: redirected_to run /\
  (forall u, In u (uri :: redirected_to run) ->
     is_Some (_checked_uris (_checker r.1.2) !! u)) /\
  knows_more (_checker h) (_checker r.1.2) /\
  _repo r.1.2 = _repo h /\ _path r.1.2 = _path h.
Proof.
  intros Hfollow. cbv zeta.
  destruct (external_run fuel uri h o) as [_ Hrun]. cbv zeta in Hrun.
  rewrite Hfollow in Hrun. destruct Hrun as ((Hr & Hp & Hc & Hm & Hk) & Hroot & _).
  auto 10.
Qed.

(** X18. An external embed whose URL already has a count, or is refused by
    [should_process_uri], is counted and nothing more: no request is
    started, no termination counter moves, no hop sample and no report are
    produced, and the handler keeps its root and its chain. *)
Theorem external_skips fuel uri h o :
  to_follow E (_checker h) uri = false ->
  let r := external cfg E (S fuel) uri h o in
  r.1.1 = Normal tt /\
  tick r.2 = tick o /\
  started_requests r.2 = started_requests o /\
  tally r.2 = tally o /\
  reports r.2 = reports o /\
  _root_url r.1.2 = _root_url h /\ _uri_chain r.1.2 = _uri_chain h /\
  is_Some (_checked_uris (_checker r.1.2) !! uri).
Proof.
  intros Hskip. cbv zeta.
  destruct (external_run fuel uri h o) as [Hres Hrun]. cbv zeta in Hrun.
  rewrite Hskip in Hrun. destruct Hrun as ((_ & _ & Hc & _) & Hroot & Hknown & Hsaid).
  split; [exact Hres |]. split; [apply Hsaid |].
  split; [apply says_only_started, Hsaid |].
  split; [unfold tally; rewrite (says_only_outcomes _ _ Hsaid), (says_only_hops _ _ Hsaid);
          reflexivity |].
  split; [apply says_only_reports, Hsaid |].
  split; [exact Hroot |]. split; [rewrite Hc; apply app_nil_r | exact Hknown].
Qed.

End HandlerMore.

(** ** The worker *)

Section WorkerMore.
Import Checker Handler Worker.
Variable cfg : settings.
Variable E : Handler.env.

Ltac silent :=
  first [ assumption
        | let e := fresh "e" in let H := fresh "H" in
          intros e H; destruct e; try reflexivity; discriminate H ].

Lemma counted_embed_run k repo path key c o :
  let r := (checker (seen cfg (libs E) k repo path key >> ret tt))
             (handler_for c repo path) o in
  r.1.1 = Normal tt /\ knows_more c (_checker r.1.2) /\
  is_Some (checked k (_checker r.1.2) !! key) /\
  started_requests r.2 = started_requests o.
Proof.
  cbv zeta. unfold checker, zoom, bind, ret. cbn [_checker handler_for].
  destruct (seen_run cfg (libs E) k repo path key c o) as [Hseen Hsaid].
  destruct (seen_knows_more cfg (libs E) k repo path key c o) as [Hmore Hknown].
  destruct (seen cfg (libs E) k repo path key c o) as [[res c1] o1].
  cbn [fst snd] in *. injection Hseen as -> _. cbn [fst snd _checker set_checker].
  split; [reflexivity |]. split; [exact Hmore |]. split; [exact Hknown |].
  apply says_only_started, Hsaid.
Qed.

Lemma handle_run fuel did path e c o :
  let r := handle cfg E (S fuel) did path e c o in
  r.1.1 = Normal tt /\ knows_more c r.1.2 /\
  is_Some (checked (key_of e).1 r.1.2 !! (key_of e).2) /\
  started_requests r.2 = started_requests o ++ requested E c e.
Proof.
  cbv zeta. unfold handle, visit, bind, get.
  cbn -[checker external started_requests image_seen video_seen record_seen].
  destruct e as [cid | cid | uri | uri]; cbn [key_of requested fst snd].
  all: rewrite ?app_nil_r.
  - destruct (counted_embed_run image did path cid c o) as (Hres & Hmore & Hknown & Hreq).
    cbv zeta in *. unfold image_seen.
    destruct (checker _ (handler_for c did path) o) as [[res h1] o1].
    cbn [fst snd] in *. auto.
  - destruct (counted_embed_run video did path cid c o) as (Hres & Hmore & Hknown & Hreq).
    cbv zeta in *. unfold video_seen.
    destruct (checker _ (handler_for c did path) o) as [[res h1] o1].
    cbn [fst snd] in *. auto.
  - destruct (counted_embed_run record did path uri c o) as (Hres & Hmore & Hknown & Hreq).
    cbv zeta in *. unfold record_seen.
    destruct (checker _ (handler_for c did path) o) as [[res h1] o1].
    cbn [fst snd] in *. auto.
  - destruct (external_run cfg E fuel uri (handler_for c did path) o) as [Hres Hrun].
    cbv zeta in Hrun. cbn [_checker handler_for] in Hrun.
    destruct (external cfg E (S fuel) uri (handler_for c did path) o) as [[res h1] o1].
    cbn [fst snd] in *. split; [exact Hres |].
    destruct (to_follow E c uri).
    + destruct Hrun as ((_ & _ & _ & Hmore & Hknown) & _ & _ &
                        said1 & said2 & Hchat1 & Hchat2 & Htrace).
      split; [exact Hmore |]. split; [apply Hknown; left; reflexivity |].
      unfold started_requests. rewrite Htrace, omap_shape by silent.
      rewrite omap_app, omap_report_events by reflexivity. reflexivity.
    + destruct Hrun as ((_ & _ & _ & Hmore & _) & _ & Hknown & Hsaid).
      split; [exact Hmore |]. split; [exact Hknown |].
      rewrite app_nil_r. apply says_only_started, Hsaid.
Qed.

Lemma to_follow_knows_more c c' u :
  knows_more c c' -> to_follow E c' u = true -> to_follow E c u = true.
Proof.
  intros Hmore. unfold to_follow.
  rewrite (admitted_knows_more (libs E) c c' u Hmore).
  destruct (_checked_uris c !! u) as [count |] eqn:Hc;
    [| destruct (_checked_uris c' !! u); intros H; try discriminate H; exact H].
  destruct (proj2 (proj2 Hmore) link u) as [count' Hc']; [exists count; exact Hc |].
  cbn [checked] in Hc'. rewrite Hc'. auto.
Qed.

Lemma for_each_run fuel did path embeds : forall c o,
  let r := for_each cfg E (S fuel) did path embeds c o in
  r.1.1 = Normal tt /\ knows_more c r.1.2 /\
  (forall e, In e embeds -> is_Some (checked (key_of e).1 r.1.2 !! (key_of e).2)) /\
  exists followed,
    started_requests r.2 = started_requests o ++ followed /\
    sublist followed (external_uris embeds) /\
    NoDup followed /\
    forall u, In u followed -> to_follow E c u = true.
Proof.
  induction embeds as [| e rest IH]; intros c o; cbv zeta.
  - cbn [for_each]. unfold ret. cbn [fst snd].
    split; [reflexivity |]. split; [apply knows_more_refl |]. split; [intros e [] |].
    exists []. split; [symmetry; apply app_nil_r |]. split; [constructor |].
    split; [constructor | intros u []].
  - cbn [for_each]. unfold bind.
    destruct (handle_run fuel did path e c o) as (Hres & Hmore & Hknown & Hreq).
    cbv zeta in *.
    destruct (handle cfg E (S fuel) did path e c o) as [[res c1] o1].
    cbn [fst snd] in Hres, Hmore, Hknown, Hreq. subst res.
    destruct (IH c1 o1) as (Hres' & Hmore' & Hknown' & followed & Hreq' & Hsub & Hnodup & Hnew).
    cbv zeta in *.
    destruct (for_each cfg E (S fuel) did path rest c1 o1) as [[res c2] o2].
    cbn [fst snd] in *.
    split; [exact Hres' |]. split; [eapply knows_more_trans; eassumption |].
    split.
    { intros e' [<- | Hin]; [apply (proj2 (proj2 Hmore')), Hknown | apply Hknown', Hin]. }
    exists (requested E c e ++ followed).
    split; [rewrite Hreq', Hreq, app_assoc; reflexivity |].
    assert (Hold : forall u, In u followed -> to_follow E c u = true)
      by (intros u Hin; eapply to_follow_knows_more; eauto).
    destruct e as [cid | cid | uri | uri]; cbn [requested external_uris omap app];
      try (split; [exact Hsub |]; split; [exact Hnodup | exact Hold]).
    fold (external_uris rest).
    destruct (to_follow E c uri) eqn:Hfollow; cbn [app].
    + split; [apply sublist_skip; exact Hsub |].
      split.
      * constructor; [| exact Hnodup].
        intros Hin. apply list_elem_of_In in Hin. apply Hnew in Hin.
        unfold to_follow in Hin. cbn [key_of fst snd checked] in Hknown.
        destruct Hknown as [count Hcount]. rewrite Hcount in Hin. discriminate.
      * intros u [<- | Hin]; [exact Hfollow | apply Hold, Hin].
    + split; [apply sublist_cons; exact Hsub |]. split; [exact Hnodup | exact Hold].
Qed.

Lemma process_run fuel l c o :
  process cfg E (S fuel) l c o =
  for_each cfg E (S fuel) (_did l) (Worker._path l) (_embeds l) c
    (emit (Decrement "operational_stats" "embed_checker" "backlog") o) /\
  started_requests (emit (Decrement "operational_stats" "embed_checker" "backlog") o) =
  started_requests o.
Proof.
  split; [reflexivity |].
  unfold started_requests. cbn [emit trace]. rewrite omap_app. apply app_nil_r.
Qed.

(** X19. Whatever the HTTP layer does, one turn of the worker returns: no
    exception escapes it.  Afterwards every embed of the list has a count
    in its category, and every count there was is still there. *)
Theorem process_counts_every_embed fuel l c o :
  (process cfg E (S fuel) l c o).1.1 = Normal tt /\
  knows_more c (process cfg E (S fuel) l c o).1.2 /\
  forall e, In e (_embeds l) ->
    is_Some (checked (key_of e).1 (process cfg E (S fuel) l c o).1.2 !! (key_of e).2).
Proof.
  destruct (process_run fuel l c o) as [-> _].
  destruct (for_each_run fuel (_did l) (Worker._path l) (_embeds l) c
              (emit (Decrement "operational_stats" "embed_checker" "backlog") o))
    as (Hres & Hmore & Hknown & _).
  auto.
Qed.

(** X20. The requests that one turn of the worker starts go to URLs of the
    list's external embeds, in the order of the list, at most one to each
    distinct URL, and only to URLs that had no count and that
    [should_process_uri] admits; image, video and record embeds start none. *)
Theorem process_follows_new_links_once fuel l c o :
  exists followed,
    started_requests (process cfg E (S fuel) l c o).2 = started_requests o ++ followed /\
    sublist followed (external_uris (_embeds l)) /\
    NoDup followed /\
    forall u, In u followed -> to_follow E c u = true.
Proof.
  destruct (process_run fuel l c o) as [-> Hsame].
  destruct (for_each_run fuel (_did l) (Worker._path l) (_embeds l) c
              (emit (Decrement "operational_stats" "embed_checker" "backlog") o))
    as (_ & _ & _ & followed & Hreq & Hrest).
  exists followed. split; [rewrite Hreq, Hsame; reflexivity | exact Hrest].
Qed.

(** X21. Once a list has been handled, a later list, of any account and
    path, whose external URLs all occur in it starts no request, however
    many other lists the checker has handled in between. *)
Theorem process_again_starts_nothing fuel fuel' l l' c o c' o' :
  knows_more (process cfg E (S fuel) l c o).1.2 c' ->
  (forall u, In u (external_uris (_embeds l')) -> In u (external_uris (_embeds l))) ->
  started_requests (process cfg E (S fuel') l' c' o').2 = started_requests o'.
Proof.
  intros Hlater Hsame.
  destruct (process_run fuel l c o) as [Hfirst _]. rewrite Hfirst in Hlater.
  destruct (for_each_run fuel (_did l) (Worker._path l) (_embeds l) c
              (emit (Decrement "operational_stats" "embed_checker" "backlog") o))
    as (_ & _ & Hknown & _).
  destruct (process_run fuel' l' c' o') as [-> Hquiet].
  destruct (for_each_run fuel' (_did l') (Worker._path l') (_embeds l') c'
              (emit (Decrement "operational_stats" "embed_checker" "backlog") o'))
    as (_ & _ & _ & followed & Hreq & Hsub & _ & Hnew).
  rewrite Hreq, Hquiet.
  destruct followed as [| u followed]; [apply app_nil_r |].
  assert (Hin : In u (external_uris (_embeds l'))).
  { apply list_elem_of_In. eapply elem_of_sublist; [left | exact Hsub]. }
  apply Hsame in Hin. unfold external_uris in Hin.
  apply list_elem_of_In, list_elem_of_omap in Hin as (e & He & Hu).
  destruct e as [cid | cid | uri | uri]; try discriminate Hu. injection Hu as ->.
  apply list_elem_of_In, Hknown in He. cbn [key_of fst snd] in He.
  apply (proj2 (proj2 Hlater)) in He. cbn [checked] in He.
  specialize (Hnew u (or_introl eq_refl)). unfold to_follow in Hnew.
  destruct He as [count Hcount]. rewrite Hcount in Hnew. discriminate Hnew.
Qed.

End WorkerMore.

(** ** Runs *)

Section MoreRuns.
Import Scenario.

(** A refresh at noon of a token with 30 s left, granted by the server. *)
Lemma rotation_run :
  (Session.check_refresh cfg60 pds_granting (session_expiring (noon + seconds 30)) io0).1 =
    (Normal tt,
     {| Session._credentials := credentials; Session._tokens := new_tokens;
        Session._access_expiry := noon + seconds 7200;
        Session._refresh_expiry := noon + seconds 86400 |}) /\
  Session.posts_to Session.refreshSession
    (Session.check_refresh cfg60 pds_granting (session_expiring (noon + seconds 30)) io0).2 =
    [Session.refresh_call (session_expiring (noon + seconds 30))].
Proof.
  destruct (check_refresh_rotates_tokens cfg60 pds_granting
              (session_expiring (noon + seconds 30)) io0 new_tokens
              (noon + seconds 7200) (noon + seconds 86400))
    as (Hstate & Hposts & _);
    [vm_compute; reflexivity | reflexivity | reflexivity | reflexivity |].
  split; [exact Hstate | exact Hposts].
Defined.

(** The refresh is rejected as an invalid token and the reconnect with
    HTTP 401. *)
Lemma locked_out_run :
  (Session.check_refresh cfg60 pds_locked_out (session_expiring (noon + seconds 30)) io0).1 =
    (Thrown http_401, session_expiring (noon + seconds 30)).
Proof.
  destruct (check_refresh_reconnect_failure cfg60 pds_locked_out
              (session_expiring (noon + seconds 30)) io0 invalid_token_error http_401)
    as [Hstate _];
    [vm_compute; reflexivity | reflexivity | vm_compute; reflexivity | reflexivity |].
  exact Hstate.
Defined.

(** The server grants an access token that decodes and a refresh token that
    does not. *)
Lemma half_garbled_run :
  (Session.check_refresh cfg60 pds_half_garbling
     (session_expiring (noon + seconds 30)) io0).1 =
    (Thrown (std_exception "invalid token supplied"),
     {| Session._credentials := credentials; Session._tokens := half_garbled_tokens;
        Session._access_expiry := noon + seconds 7200;
        Session._refresh_expiry := noon + seconds 86400 |}).
Proof.
  destruct (check_refresh_decode_failure_is_partial cfg60 pds_half_garbling
              (session_expiring (noon + seconds 30)) io0 half_garbled_tokens
              (noon + seconds 7200) (std_exception "invalid token supplied"))
    as [Hstate _];
    [vm_compute; reflexivity | reflexivity | reflexivity | reflexivity
    | vm_compute; reflexivity |].
  exact Hstate.
Defined.

(** The first connect of a session, granted. *)
Lemma first_connect_run :
  (Session.connect pds_granting credentials (Session.fresh credentials) io0).1 =
    (Normal tt,
     {| Session._credentials := credentials; Session._tokens := new_tokens;
        Session._access_expiry := noon + seconds 7200;
        Session._refresh_expiry := noon + seconds 86400 |}).
Proof.
  destruct (connect_establishes_session pds_granting credentials
              (Session.fresh credentials) io0 new_tokens
              (noon + seconds 7200) (noon + seconds 86400))
    as [Hstate _]; [reflexivity | reflexivity | reflexivity |].
  exact Hstate.
Defined.

(** A connect with other credentials that the server turns away. *)
Lemma rejected_connect_run :
  (Session.connect pds_locked_out
     {| identifier := "moderator.example"; password := "revoked" |}
     (session_expiring (noon + seconds 30)) io0).1 =
    (Thrown http_401,
     Session.set_credentials {| identifier := "moderator.example"; password := "revoked" |}
       (session_expiring (noon + seconds 30))).
Proof.
  apply (connect_failure_keeps_tokens pds_locked_out
           {| identifier := "moderator.example"; password := "revoked" |}
           (session_expiring (noon + seconds 30)) io0 http_401).
  reflexivity.
Defined.

(** Two dropped connections and then the answer: three requests. *)
Lemma create_record_third_time_run :
  (Client.perform cfg60 (flaky_server 5 recorded) no_response printed
     (Client.op_create_record report_json) (client_with false true) io0).1 =
    (Normal recorded, client_with false true) /\
  List.length
    (Client.requests
       (Client.perform cfg60 (flaky_server 5 recorded) no_response printed
          (Client.op_create_record report_json) (client_with false true) io0).2) = 3%nat.
Proof.
  apply (perform_recovers_from_eofs cfg60 (flaky_server 5 recorded) no_response printed
           (Client.op_create_record report_json) (client_with false true) io0
           eof_error recorded 2).
  - reflexivity.
  - lia.
  - intros _ i _. vm_compute. reflexivity.
  - intros i Hi request. destruct i as [| [| i]]; [reflexivity | reflexivity | lia].
  - intros request. reflexivity.
Defined.


(** A report answered at the second request is counted once as sent. *)
Lemma report_second_time_run :
  increments "automation" "report" "link_redirection"
    (Client.send_report cfg60 (flaky_server 3 recorded) printed spammer reason_json
       "link_redirection" report_json (client_with false true) io0).2 = 1%nat /\
  increments "automation" "report_error" "link_redirection"
    (Client.send_report cfg60 (flaky_server 3 recorded) printed spammer reason_json
       "link_redirection" report_json (client_with false true) io0).2 = 0%nat.
Proof.
  destruct (send_report_recovers_from_eofs cfg60 (flaky_server 3 recorded) printed spammer
              reason_json "link_redirection" report_json (client_with false true) io0
              eof_error recorded 1) as (_ & _ & Hsent & Herror).
  - reflexivity.
  - reflexivity.
  - lia.
  - intros i _. vm_compute. reflexivity.
  - intros i Hi request. destruct i as [| i]; [reflexivity | lia].
  - intros request. reflexivity.
  - split; [exact Hsent | exact Herror].
Defined.

(** A write by a client whose token has 30 s left goes out with the token
    that the refresh of that very call brought. *)
Lemma write_with_rotated_token_run :
  exists request,
    Client.requests
      (Client.perform cfg60 (server (Returns recorded)) no_response printed
         (Client.op_put_record report_json) client_expiring io0).2 = [request] /\
    In ("Authorization"%string, "Bearer access-2"%string) (headers request).
Proof.
  destruct (write_carries_token_after_refresh cfg60 (server (Returns recorded)) no_response
              printed (Client.op_put_record report_json) client_expiring io0
              {| Session._credentials := credentials; Session._tokens := new_tokens;
                 Session._access_expiry := noon + seconds 7200;
                 Session._refresh_expiry := noon + seconds 86400 |}
              (Session.check_refresh cfg60 pds_granting
                 (session_expiring (noon + seconds 30)) io0).2 recorded)
    as (_ & request & Hsent & Hheader).
  - reflexivity.
  - vm_compute. reflexivity.
  - intros request. reflexivity.
  - exists request. split; [exact Hsent | exact Hheader].
Defined.

(** A write by a client that never connected, on a server that answers 401:
    the refresh fails and no request is sent. *)
Lemma write_without_session_run :
  (Client.perform cfg60 server_unauthorized no_response printed
     (Client.op_emit_event report_json) unconnected_client io0).1.1 = Thrown http_401 /\
  Client.requests
    (Client.perform cfg60 server_unauthorized no_response printed
       (Client.op_emit_event report_json) unconnected_client io0).2 = [].
Proof.
  destruct (failed_refresh_sends_nothing cfg60 server_unauthorized no_response printed
              (Client.op_emit_event report_json) unconnected_client io0
              (Session.fresh credentials)
              (Session.check_refresh cfg60 (Client.session_env server_unauthorized)
                 (Session.fresh credentials) io0).2 http_401) as [Hstate Hsent].
  - reflexivity.
  - vm_compute. reflexivity.
  - reflexivity.
  - split; [rewrite Hstate; reflexivity | exact Hsent].
Defined.

(** The short link, new to the checker, when starting the request throws
    the redirect limit's exception: counted as overflow, reported once. *)
Lemma overflow_at_start_run :
  increments "embed_stats" "link" "redirect_limit_exceeded"
    (Handler.external factors
       (http_layer [] (Handler.start_throws (ConstraintException "Too many redirects")))
       1 short_link starting io0).2 = 1%nat /\
  Handler.reports
    (Handler.external factors
       (http_layer [] (Handler.start_throws (ConstraintException "Too many redirects")))
       1 short_link starting io0).2 = [(spammer, record_path, [short_link])].
Proof.
  destruct (external_outcome_by_run factors
              (http_layer [] (Handler.start_throws (ConstraintException "Too many redirects")))
              0 short_link starting io0) as (_ & _ & Hcount & _ & Hreports & _).
  - vm_compute. reflexivity.
  - split; [exact Hcount | exact Hreports].
Defined.

(** The short link redirected once, to the landing page. *)
Lemma one_redirect_chain_run :
  Handler._uri_chain
    (Handler.external factors (http_layer [] (follow 5 [landing])) 1 short_link
       starting io0).1.2 = [short_link; landing].
Proof.
  destruct (external_advances_chain factors (http_layer [] (follow 5 [landing])) 0
              short_link starting io0) as (_ & Hchain & _).
  - vm_compute. reflexivity.
  - exact Hchain.
Defined.

(** A whitelisted link is counted and not requested. *)
Lemma whitelisted_link_run :
  Handler.started_requests
    (Handler.external factors (http_layer [] (follow 5 [landing])) 1 whitelisted
       starting io0).2 = [] /\
  is_Some
    (Checker._checked_uris
       (Handler._checker
          (Handler.external factors (http_layer [] (follow 5 [landing])) 1 whitelisted
             starting io0).1.2) !! whitelisted).
Proof.
  destruct (external_skips factors (http_layer [] (follow 5 [landing])) 0 whitelisted
              starting io0) as (_ & _ & Hsent & _ & _ & _ & _ & Hcounted).
  - vm_compute. reflexivity.
  - split; [exact Hsent | exact Hcounted].
Defined.

(** Another account's post with the link of a post handled before. *)
Lemma repost_run :
  Handler.started_requests
    (Worker.process factors (http_layer [] (follow 5 [landing])) 1 repost_embeds
       (Worker.process factors (http_layer [] (follow 5 [landing])) 1 post_embeds
          checker0 io0).1.2 io0).2 = [].
Proof.
  apply (process_again_starts_nothing factors (http_layer [] (follow 5 [landing])) 0 0
           post_embeds repost_embeds checker0 io0).
  - split; [reflexivity | split; [reflexivity | intros k key Hsome; exact Hsome]].
  - intros u Hin. simpl in Hin |- *. destruct Hin as [<- | []]. left. reflexivity.
Defined.


End MoreRuns.
